(** * The monitoring, incident and notification engine of fn-bot

    A shallow embedding of [class ServerMonitor] and of the helpers it calls
    in [src/connection/setup-email.js], with the properties of the engine
    that the specification states.

    Conventions of the embedding.
    - JavaScript numbers that the engine handles (clock readings in
      milliseconds, latencies, counters, player counts, protocol numbers)
      are integers and are modelled in [Z].
    - The Mongo collections are in-memory lists of rows in insertion order;
      a store operation does not fail.  The channel providers do fail: their
      outcome is an oracle [provider].
    - A Mongoose document is the values of its schema paths together with
      the plain properties assigned to the object; [save] writes the schema
      paths to the row that has the document's [_id].
    - A handler reads the clock once: the [now] it is given.
    - [logEvent] and [io.emit] touch neither the collections nor the timers
      modelled here and are left out. *)

From Stdlib Require Import ZArith.
From stdpp Require Import gmap strings list pretty.

Open Scope Z_scope.

(** ** JavaScript values held by settings *)

Inductive jsval : Type :=
  | JUndefined
  | JNull
  | JBool (b : bool)
  | JNum (n : Z)
  | JStr (s : string).

#[global] Instance jsval_eq_dec : EqDecision jsval.
Proof. solve_decision. Defined.

(** Truthiness, as [&&], [||], [!] and [if] see a value. *)
Definition truthy (v : jsval) : bool :=
  match v with
  | JUndefined | JNull => false
  | JBool b => b
  | JNum n => negb (n =? 0)
  | JStr s => negb (String.eqb s "")
  end.

(** [a && b] and [a || b] on values. *)
Definition js_and (a b : jsval) : jsval := if truthy a then b else a.
Definition js_or (a b : jsval) : jsval := if truthy a then a else b.

(** [`${v}`] *)
Definition js_to_string (v : jsval) : string :=
  match v with
  | JUndefined => "undefined"
  | JNull => "null"
  | JBool true => "true"
  | JBool false => "false"
  | JNum n => pretty n
  | JStr s => s
  end.

(** ** Data model *)

(** An [ObjectId]; [toString] is its printed form. *)
Definition ObjectId : Type := nat.
Definition toString (i : ObjectId) : string := pretty i.

(** [serverSchema.stats] *)
Record Stats : Type := mkStats {
  totalChecks : Z;
  uptimeChecks : Z;
  totalDowntime : Z
}.

(** [status.players]: the counts the engine reads. *)
Record Players : Type := mkPlayers {
  players_online : Z;
  players_max : Z
}.

(** [status.version]: a field the response leaves out is [JUndefined] for
    the name and [None] for the protocol number. *)
Record Version : Type := mkVersion {
  version_name : jsval;
  version_protocol : option Z
}.

(** The body of a status response of the query API, [response.data]. *)
Record ApiData : Type := mkApiData {
  data_online : bool;
  data_players : option Players;
  data_version : option Version
}.

(** The [status] object built by [checkServer].  The success branch fills
    [players] and [version]; the failure branch fills [error] and leaves
    both of them undefined.  The fields [motd], [icon] and [rawData] are
    read by nothing in the engine and are left out. *)
Record Status : Type := mkStatus {
  online : bool;
  players : option Players;
  version : option Version;
  error : option string;
  responseTime : Z;
  lastCheck : Z
}.

(** [serverSchema] *)
Record Server : Type := mkServer {
  server_id : ObjectId;
  name : string;
  address : string;
  port : Z;
  type : string;
  isActive : bool;
  checkInterval : Z;
  lastStatus : option Status;
  stats : Stats
}.

(** A candidate issue, an element of the [issues] array. *)
Record Issue : Type := mkIssue {
  issue_type : string;
  issue_severity : string;
  issue_title : string;
  issue_description : string
}.

#[global] Instance Issue_eq_dec : EqDecision Issue.
Proof. solve_decision. Defined.

(** [incident.data] *)
Record IncidentData : Type := mkIncidentData {
  serverName : string;
  serverAddress : string;
  timestamp : Z
}.

(** A row of the Incident collection: the paths of [incidentSchema], and
    the [_id] every row has.  The schema declares no [updatedAt] path and
    no [timestamps] option. *)
Record Incident : Type := mkIncident {
  incident_id : ObjectId;
  serverId : ObjectId;
  incident_type : string;
  title : string;
  description : string;
  severity : string;
  status : string;
  resolvedAt : option Z;
  data : IncidentData;
  notificationsSent : bool;
  createdAt : Z
}.

(** The paths [incidentSchema] declares. *)
Definition incidentSchema : list string :=
  ["serverId"; "type"; "title"; "description"; "severity"; "status";
   "resolvedAt"; "data"; "notificationsSent"; "createdAt"].

(** An Incident document in memory: the values of the schema paths and the
    plain properties assigned to the object under names that are not schema
    paths.  [save] writes the schema paths only. *)
Record IncidentDoc : Type := mkIncidentDoc {
  doc_row : Incident;
  doc_props : list (string * jsval)
}.

(** A row of the Notification collection, as [sendIncidentNotifications]
    fills it. *)
Record Notification : Type := mkNotification {
  notification_type : string;
  notification_title : string;
  notification_message : string;
  recipient : jsval;
  notification_status : string;
  notification_error : option string;
  sentAt : Z
}.

(** A row of the Setting collection. *)
Record Setting : Type := mkSetting {
  key : string;
  value : jsval
}.

(** ** Channels, timers and the state of the process *)

Inductive Channel : Type := Email | WhatsApp | Telegram.

#[global] Instance Channel_eq_dec : EqDecision Channel.
Proof. solve_decision. Defined.

(** The [type] a notification record carries for a channel. *)
Definition channel_name (c : Channel) : string :=
  match c with
  | Email => "email"
  | WhatsApp => "whatsapp"
  | Telegram => "telegram"
  end.

(** Which of the two message templates a send carries: the incident text
    built by [sendIncidentNotifications] or the recovery text built by
    [sendRecoveryNotification]. *)
Inductive Template : Type := IncidentTemplate | RecoveryTemplate.

#[global] Instance Template_eq_dec : EqDecision Template.
Proof. solve_decision. Defined.

(** One call of [sendEmail], [sendWhatsAppMessage] or [sendTelegramMessage]:
    where it went and the message of the error it threw, if it threw. *)
Record Delivery : Type := mkDelivery {
  channel : Channel;
  delivery_to : jsval;
  template : Template;
  outcome : option string
}.

(** The module-level client variables: whether [emailTransporter],
    [whatsappClient] and [telegramBot] are set, and the two ready flags. *)
Record Clients : Type := mkClients {
  emailTransporter : bool;
  whatsappClient : bool;
  whatsappReady : bool;
  telegramBot : bool;
  telegramReady : bool
}.

(** What a live [setInterval] handle runs.  The poll callback closes over
    the server document; the recovery callback closes over the server and
    the incident document that [handleIssue] created. *)
Inductive TimerJob : Type :=
  | PollJob (server : ObjectId)
  | RecoveryJob (server : Server) (incident : IncidentDoc).

Record World : Type := mkWorld {
  incidents : list Incident;
  notifications : list Notification;
  settings : list Setting;
  servers : list Server;
  outbox : list Delivery;
  timers : gmap nat TimerJob;
  monitoring : gmap string nat;
  incidentCheckers : gmap string nat;
  nextTimer : nat;
  nextObjectId : ObjectId;
  clients : Clients
}.

Definition set_incidents (l : list Incident) (w : World) : World :=
  mkWorld l (notifications w) (settings w) (servers w) (outbox w) (timers w)
    (monitoring w) (incidentCheckers w) (nextTimer w) (nextObjectId w)
    (clients w).

Definition set_notifications (l : list Notification) (w : World) : World :=
  mkWorld (incidents w) l (settings w) (servers w) (outbox w) (timers w)
    (monitoring w) (incidentCheckers w) (nextTimer w) (nextObjectId w)
    (clients w).

Definition set_servers (l : list Server) (w : World) : World :=
  mkWorld (incidents w) (notifications w) (settings w) l (outbox w) (timers w)
    (monitoring w) (incidentCheckers w) (nextTimer w) (nextObjectId w)
    (clients w).

Definition set_outbox (l : list Delivery) (w : World) : World :=
  mkWorld (incidents w) (notifications w) (settings w) (servers w) l (timers w)
    (monitoring w) (incidentCheckers w) (nextTimer w) (nextObjectId w)
    (clients w).

Definition set_timers (t : gmap nat TimerJob) (w : World) : World :=
  mkWorld (incidents w) (notifications w) (settings w) (servers w) (outbox w) t
    (monitoring w) (incidentCheckers w) (nextTimer w) (nextObjectId w)
    (clients w).

Definition set_monitoring (m : gmap string nat) (w : World) : World :=
  mkWorld (incidents w) (notifications w) (settings w) (servers w) (outbox w)
    (timers w) m (incidentCheckers w) (nextTimer w) (nextObjectId w)
    (clients w).

Definition set_incidentCheckers (m : gmap string nat) (w : World) : World :=
  mkWorld (incidents w) (notifications w) (settings w) (servers w) (outbox w)
    (timers w) (monitoring w) m (nextTimer w) (nextObjectId w) (clients w).

Definition set_nextTimer (n : nat) (w : World) : World :=
  mkWorld (incidents w) (notifications w) (settings w) (servers w) (outbox w)
    (timers w) (monitoring w) (incidentCheckers w) n (nextObjectId w)
    (clients w).

Definition set_nextObjectId (n : ObjectId) (w : World) : World :=
  mkWorld (incidents w) (notifications w) (settings w) (servers w) (outbox w)
    (timers w) (monitoring w) (incidentCheckers w) (nextTimer w) n (clients w).

(** A process that has just started: empty collections, no timer. *)
Definition emptyWorld (s : list Setting) (c : Clients) : World :=
  mkWorld [] [] s [] [] ∅ ∅ ∅ 0%nat 0%nat c.

(** [setInterval(job, ...)]: a fresh handle is live. *)
Definition setInterval (job : TimerJob) (w : World) : nat * World :=
  (nextTimer w,
   set_nextTimer (S (nextTimer w))
     (set_timers (<[nextTimer w := job]> (timers w)) w)).

(** [clearInterval(h)] *)
Definition clearInterval (h : nat) (w : World) : World :=
  set_timers (delete h (timers w)) w.

(** ** Settings *)

(** [getSetting(key, defaultValue)]: [Setting.findOne({ key })], then
    [setting ? setting.value : defaultValue]. *)
Definition getSetting (w : World) (k : string) (defaultValue : jsval) : jsval :=
  match List.find (fun s => String.eqb (key s) k) (settings w) with
  | Some s => value s
  | None => defaultValue
  end.

Definition telegram_subscribed : string := "telegram_subscribed_".

(** [Setting.find({ key: /^telegram_subscribed_/ })] followed by
    [settings.filter(s => s.value === true)]. *)
Definition subscribedChats (w : World) : list Setting :=
  List.filter (fun s => bool_decide (value s = JBool true))
    (List.filter (fun s => String.prefix telegram_subscribed (key s)) (settings w)).

(** [setting.key.replace('telegram_subscribed_', '')]: the key starts with
    the pattern, so the occurrence replaced is the leading one. *)
Definition chatId_of (s : Setting) : string :=
  String.substring (String.length telegram_subscribed)
    (String.length (key s) - String.length telegram_subscribed) (key s).

(** ** Issue detection: the [issues] array of [checkForIssues] *)

(** [status.error || 'Connection timeout'] *)
Definition error_or_timeout (st : Status) : string :=
  match error st with
  | Some e => if String.eqb e "" then "Connection timeout" else e
  | None => "Connection timeout"
  end.

Definition issue_offline (server : Server) (st : Status) : Issue :=
  mkIssue "server_offline" "critical" "Server Offline"
    ("Server " +:+ name server +:+ " is not responding. Error: "
       +:+ error_or_timeout st).

Definition issue_latency (server : Server) (st : Status) : Issue :=
  mkIssue "high_latency" "warning" "High Latency"
    ("Server " +:+ name server +:+ " has high latency: "
       +:+ pretty (responseTime st) +:+ "ms").

Definition issue_full (server : Server) (p : Players) : Issue :=
  mkIssue "full_capacity" "warning" "Server Full"
    ("Server " +:+ name server +:+ " is at full capacity ("
       +:+ pretty (players_online p) +:+ "/" +:+ pretty (players_max p) +:+ ")").

Definition issue_version (server : Server) (v : Version) : Issue :=
  mkIssue "version_mismatch" "info" "Old Version"
    ("Server " +:+ name server +:+ " is running an old version: "
       +:+ js_to_string (version_name v)).

(** [status.players && status.players.online === status.players.max &&
    status.players.max > 0] *)
Definition is_full (st : Status) : option Players :=
  match players st with
  | Some p =>
      if (players_online p =? players_max p) && (0 <? players_max p)
      then Some p else None
  | None => None
  end.

(** The protocol number below which a version counts as old. *)
Definition minProtocol : Z := 671.

(** [status.version && status.version.protocol &&
    status.version.protocol < 671]: the middle conjunct is a truthiness
    test, which the number 0 fails. *)
Definition is_old_version (st : Status) : option Version :=
  match version st with
  | Some v =>
      match version_protocol v with
      | Some p => if negb (p =? 0) && (p <? minProtocol) then Some v else None
      | None => None
      end
  | None => None
  end.

(** The four tests in the order of the source, each pushing onto the array
    built so far. *)
Definition detectIssues (server : Server) (st : Status) : list Issue :=
  let issues := [] in
  let issues :=
    if negb (online st) then issues ++ [issue_offline server st] else issues in
  let issues :=
    if 1000 <? responseTime st then issues ++ [issue_latency server st]
    else issues in
  let issues :=
    match is_full st with
    | Some p => issues ++ [issue_full server p]
    | None => issues
    end in
  let issues :=
    match is_old_version st with
    | Some v => issues ++ [issue_version server v]
    | None => issues
    end in
  issues.

(** ** The Incident and Server collections *)

(** Write a row under its [_id]: replace the row that has it, or insert. *)
Fixpoint upsertIncident (r : Incident) (l : list Incident) : list Incident :=
  match l with
  | [] => [r]
  | x :: l' =>
      if Nat.eqb (incident_id x) (incident_id r) then r :: l'
      else x :: upsertIncident r l'
  end.

(** [incident.save()]: the schema paths of the document go to its row; the
    properties outside the schema ([doc_props]) are not written. *)
Definition saveIncident (d : IncidentDoc) (w : World) : World :=
  set_incidents (upsertIncident (doc_row d) (incidents w)) w.

(** [Incident.findById(id)] *)
Definition findIncidentById (w : World) (id : ObjectId) : option Incident :=
  List.find (fun i => Nat.eqb (incident_id i) id) (incidents w).

Fixpoint upsertServer (s : Server) (l : list Server) : list Server :=
  match l with
  | [] => [s]
  | x :: l' =>
      if Nat.eqb (server_id x) (server_id s) then s :: l'
      else x :: upsertServer s l'
  end.

(** [server.save()] *)
Definition saveServer (s : Server) (w : World) : World :=
  set_servers (upsertServer s (servers w)) w.

(** [ServerModel.findById(id)] *)
Definition findServerById (w : World) (id : ObjectId) : option Server :=
  List.find (fun s => Nat.eqb (server_id s) id) (servers w).

(** The dedup window of [handleIssue]: [30 * 60 * 1000] milliseconds. *)
Definition dedupWindow : Z := 30 * 60 * 1000.

(** The query of [handleIssue]: same server, same type, status ['active'],
    [createdAt >= now - 30 minutes]. *)
Definition matchesActive (sid : ObjectId) (ty : string) (now : Z)
    (i : Incident) : bool :=
  Nat.eqb (serverId i) sid && String.eqb (incident_type i) ty
  && String.eqb (status i) "active" && (now - dedupWindow <=? createdAt i).

(** [Incident.findOne({ serverId, type, status: 'active', createdAt: ... })] *)
Definition findActiveIncident (w : World) (sid : ObjectId) (ty : string)
    (now : Z) : option Incident :=
  List.find (matchesActive sid ty now) (incidents w).

(** Assignments to an incident document. *)
Definition set_status (s : string) (r : Incident) : Incident :=
  mkIncident (incident_id r) (serverId r) (incident_type r) (title r)
    (description r) (severity r) s (resolvedAt r) (data r)
    (notificationsSent r) (createdAt r).

Definition set_resolvedAt (t : option Z) (r : Incident) : Incident :=
  mkIncident (incident_id r) (serverId r) (incident_type r) (title r)
    (description r) (severity r) (status r) t (data r)
    (notificationsSent r) (createdAt r).

Definition set_notificationsSent (b : bool) (r : Incident) : Incident :=
  mkIncident (incident_id r) (serverId r) (incident_type r) (title r)
    (description r) (severity r) (status r) (resolvedAt r) (data r)
    b (createdAt r).

Definition on_row (f : Incident -> Incident) (d : IncidentDoc) : IncidentDoc :=
  mkIncidentDoc (f (doc_row d)) (doc_props d).

(** A date held by a path of type [Date]. *)
Definition js_date (v : jsval) : option Z :=
  match v with
  | JNum t => Some t
  | _ => None
  end.

(** [doc.p = v].  For a path of [incidentSchema] the assignment goes to
    the schema value (the engine assigns [status], [resolvedAt] and
    [notificationsSent], and no other path); for a name that is no schema
    path it makes a plain property of the object. *)
Definition assign (p : string) (v : jsval) (d : IncidentDoc) : IncidentDoc :=
  if existsb (String.eqb p) incidentSchema then
    if String.eqb p "status" then on_row (set_status (js_to_string v)) d
    else if String.eqb p "resolvedAt" then on_row (set_resolvedAt (js_date v)) d
    else if String.eqb p "notificationsSent"
         then on_row (set_notificationsSent (truthy v)) d
    else d
  else mkIncidentDoc (doc_row d) ((p, v) :: doc_props d).

(** ** The engine, over an oracle for the channel providers *)

Module ServerMonitor.
Section Engine.

(** What the provider behind a channel does with a message for a recipient:
    [None] when the call resolves, [Some message] when it throws. *)
Variable provider : Channel -> jsval -> Template -> option string.

(** Record a send call and hand back whether it threw. *)
Definition deliver (c : Channel) (to : jsval) (t : Template)
    (r : option string) (w : World) : option string * World :=
  (r, set_outbox (outbox w ++ [mkDelivery c to t r]) w).

(** [sendEmail]: throws at once without a transporter, else rethrows what
    [sendMail] throws. *)
Definition sendEmail (to : jsval) (t : Template) (w : World)
    : option string * World :=
  if negb (emailTransporter (clients w))
  then deliver Email to t (Some "Email transporter not ready") w
  else deliver Email to t (provider Email to t) w.

(** [sendWhatsAppMessage] *)
Definition sendWhatsAppMessage (phone : jsval) (t : Template) (w : World)
    : option string * World :=
  if negb (whatsappReady (clients w)) || negb (whatsappClient (clients w))
  then deliver WhatsApp phone t (Some "WhatsApp client not ready") w
  else deliver WhatsApp phone t (provider WhatsApp phone t) w.

(** [sendTelegramMessage] *)
Definition sendTelegramMessage (chatId : jsval) (t : Template) (w : World)
    : option string * World :=
  if negb (telegramReady (clients w)) || negb (telegramBot (clients w))
  then deliver Telegram chatId t (Some "Telegram bot not ready") w
  else deliver Telegram chatId t (provider Telegram chatId t) w.

(** An element of the local [notifications] array. *)
Record Notif : Type := mkNotif {
  notif_type : string;
  notif_recipient : jsval;
  notif_status : string;
  notif_error : option string
}.

(** The two arms of a [try { await send; push sent } catch { push failed }]. *)
Definition pushOutcome (c : Channel) (to : jsval) (r : option string)
    (notifs : list Notif) : list Notif :=
  match r with
  | None => notifs ++ [mkNotif (channel_name c) to "sent" None]
  | Some e => notifs ++ [mkNotif (channel_name c) to "failed" (Some e)]
  end.

(** The severity switch: the setting that gates the incident's severity;
    [shouldSend] stays [false] for any other severity. *)
Definition shouldSend (w : World) (sev : string) : jsval :=
  let sendCritical := getSetting w "notify_critical" (JBool true) in
  let sendWarning := getSetting w "notify_warning" (JBool true) in
  let sendInfo := getSetting w "notify_info" (JBool false) in
  if String.eqb sev "critical" then sendCritical
  else if String.eqb sev "warning" then sendWarning
  else if String.eqb sev "info" then sendInfo
  else JBool false.

(** [if (emailEnabled && adminEmail) { try ... catch ... }] *)
Definition emailBlock (notifs : list Notif) (w : World) : list Notif * World :=
  let emailEnabled := getSetting w "email_enabled" (JBool false) in
  let adminEmail := getSetting w "admin_email" JNull in
  if truthy (js_and emailEnabled adminEmail) then
    let '(r, w1) := sendEmail adminEmail IncidentTemplate w in
    (pushOutcome Email adminEmail r notifs, w1)
  else (notifs, w).

(** [if (whatsappEnabled && adminPhone && whatsappReady) { try ... }] *)
Definition whatsappBlock (notifs : list Notif) (w : World)
    : list Notif * World :=
  let whatsappEnabled := getSetting w "whatsapp_enabled" (JBool false) in
  let adminPhone := getSetting w "admin_phone" JNull in
  if truthy (js_and whatsappEnabled adminPhone) && whatsappReady (clients w)
  then
    let '(r, w1) := sendWhatsAppMessage adminPhone IncidentTemplate w in
    (pushOutcome WhatsApp adminPhone r notifs, w1)
  else (notifs, w).

(** [for (const setting of subscribedChats) { try ... catch ... }] *)
Fixpoint telegramLoop (chats : list Setting) (notifs : list Notif) (w : World)
    : list Notif * World :=
  match chats with
  | [] => (notifs, w)
  | setting :: rest =>
      let chatId := JStr (chatId_of setting) in
      let '(r, w1) := sendTelegramMessage chatId IncidentTemplate w in
      telegramLoop rest (pushOutcome Telegram chatId r notifs) w1
  end.

(** [if (telegramEnabled && telegramReady) { ... }] *)
Definition telegramBlock (notifs : list Notif) (w : World)
    : list Notif * World :=
  let telegramEnabled := getSetting w "telegram_enabled" (JBool true) in
  if truthy telegramEnabled && telegramReady (clients w)
  then telegramLoop (subscribedChats w) notifs w
  else (notifs, w).

(** [new Notification({...})] for an element of the array. *)
Definition notificationOf (incident : IncidentDoc) (now : Z) (n : Notif)
    : Notification :=
  mkNotification (notif_type n) (title (doc_row incident))
    (description (doc_row incident)) (notif_recipient n) (notif_status n)
    (notif_error n) now.

(** The loop that saves one record per element of the array. *)
Definition saveNotifications (incident : IncidentDoc) (now : Z)
    (notifs : list Notif) (w : World) : World :=
  foldl (fun w n =>
           set_notifications (notifications w ++ [notificationOf incident now n]) w)
    w notifs.

(** [sendIncidentNotifications(incident, server)]; the document comes back
    because the function assigns to it. *)
Definition sendIncidentNotifications (incident : IncidentDoc) (server : Server)
    (now : Z) (w : World) : IncidentDoc * World :=
  if negb (truthy (shouldSend w (severity (doc_row incident))))
  then (incident, w)
  else
    let '(notifs, w) := emailBlock [] w in
    let '(notifs, w) := whatsappBlock notifs w in
    let '(notifs, w) := telegramBlock notifs w in
    let w := saveNotifications incident now notifs w in
    let incident := assign "notificationsSent" (JBool true) incident in
    (incident, saveIncident incident w).

(** [setupRecoveryCheck(server, incident)]: arm the watcher and register its
    handle under the incident's id. *)
Definition setupRecoveryCheck (server : Server) (incident : IncidentDoc)
    (w : World) : World :=
  let '(checkInterval, w) := setInterval (RecoveryJob server incident) w in
  set_incidentCheckers
    (<[toString (incident_id (doc_row incident)) := checkInterval]>
       (incidentCheckers w)) w.

(** [new Incident({...})] in [handleIssue]; [createdAt] defaults to the
    clock. *)
Definition newIncident (id : ObjectId) (server : Server) (issue : Issue)
    (now : Z) : IncidentDoc :=
  mkIncidentDoc
    (mkIncident id (server_id server) (issue_type issue) (issue_title issue)
       (issue_description issue) (issue_severity issue) "active" None
       (mkIncidentData (name server)
          (address server +:+ ":" +:+ pretty (port server)) now)
       false now)
    [].

(** [handleIssue(server, issue)] *)
Definition handleIssue (server : Server) (issue : Issue) (now : Z) (w : World)
    : World :=
  match findActiveIncident w (server_id server) (issue_type issue) now with
  | Some row =>
      let existingIncident := mkIncidentDoc row [] in
      let existingIncident := assign "updatedAt" (JNum now) existingIncident in
      saveIncident existingIncident w
  | None =>
      let incident := newIncident (nextObjectId w) server issue now in
      let w := set_nextObjectId (S (nextObjectId w)) w in
      let w := saveIncident incident w in
      let '(incident, w) := sendIncidentNotifications incident server now w in
      if String.eqb (issue_type issue) "server_offline"
      then setupRecoveryCheck server incident w
      else w
  end.

(** [checkForIssues(server, status)]: detect, then handle each issue in
    turn. *)
Definition checkForIssues (server : Server) (st : Status) (now : Z) (w : World)
    : World :=
  foldl (fun w issue => handleIssue server issue now w) w
    (detectIssues server st).

(** The recovery sends share one [try]: the first send that throws ends the
    function in its [catch]. *)
Fixpoint recoveryLoop (chats : list Setting) (w : World) : World :=
  match chats with
  | [] => w
  | setting :: rest =>
      let '(r, w1) :=
        sendTelegramMessage (JStr (chatId_of setting)) RecoveryTemplate w in
      match r with
      | None => recoveryLoop rest w1
      | Some _ => w1
      end
  end.

(** [sendRecoveryNotification(server, incident)] *)
Definition sendRecoveryNotification (server : Server) (incident : IncidentDoc)
    (now : Z) (w : World) : World :=
  let emailEnabled := getSetting w "email_enabled" (JBool false) in
  let telegramEnabled := getSetting w "telegram_enabled" (JBool true) in
  let whatsappEnabled := getSetting w "whatsapp_enabled" (JBool false) in
  let adminEmail := getSetting w "admin_email" JNull in
  let adminPhone := getSetting w "admin_phone" JNull in
  let '(r, w) :=
    if truthy (js_and emailEnabled adminEmail)
    then sendEmail adminEmail RecoveryTemplate w
    else (None, w) in
  match r with
  | Some _ => w
  | None =>
      let '(r, w) :=
        if truthy (js_and whatsappEnabled adminPhone) && whatsappReady (clients w)
        then sendWhatsAppMessage adminPhone RecoveryTemplate w
        else (None, w) in
      match r with
      | Some _ => w
      | None =>
          if truthy telegramEnabled && telegramReady (clients w)
          then recoveryLoop (subscribedChats w) w
          else w
      end
  end.

(** The callback that [setupRecoveryCheck] hands to [setInterval];
    [checkInterval] is its own handle.  A [currentServer] that is [null]
    makes the property read throw, which the callback's [catch] swallows. *)
Definition recoveryCheck (checkInterval : nat) (server : Server)
    (incident : IncidentDoc) (now : Z) (w : World) : World :=
  match findServerById w (server_id server) with
  | None => w
  | Some currentServer =>
      match lastStatus currentServer with
      | Some st =>
          if online st then
            let w := clearInterval checkInterval w in
            let w :=
              set_incidentCheckers
                (delete (toString (incident_id (doc_row incident)))
                   (incidentCheckers w)) w in
            let incident := assign "status" (JStr "resolved") incident in
            let incident := assign "resolvedAt" (JNum now) incident in
            let w := saveIncident incident w in
            sendRecoveryNotification server incident now w
          else w
      | None => w
      end
  end.

(** One firing of a live recovery timer: the runtime calls the callback the
    handle was armed with; a handle that was cleared does not fire. *)
Definition fireRecovery (h : nat) (now : Z) (w : World) : World :=
  match timers w !! h with
  | Some (RecoveryJob server incident) => recoveryCheck h server incident now w
  | _ => w
  end.

(** The handler of [POST /api/incidents/:id/resolve], past authentication:
    an unknown id answers 404 and writes nothing. *)
Definition resolveIncident (id : ObjectId) (now : Z) (w : World) : World :=
  match findIncidentById w id with
  | None => w
  | Some row =>
      let incident := mkIncidentDoc row [] in
      let incident := assign "status" (JStr "resolved") incident in
      let incident := assign "resolvedAt" (JNum now) incident in
      saveIncident incident w
  end.

(** What [axios.get] gives [checkServer]: a response with its body
    ([None] for a body that is [undefined], on which [data.online] throws a
    [TypeError]) or a rejection with its message; and the milliseconds
    that passed. *)
Inductive ProbeOutcome : Type :=
  | ProbeResponse (body : option ApiData) (elapsed : Z)
  | ProbeError (message : string) (elapsed : Z).

Definition set_stats (s : Stats) (r : Server) : Server :=
  mkServer (server_id r) (name r) (address r) (port r) (type r) (isActive r)
    (checkInterval r) (lastStatus r) s.

Definition set_lastStatus (st : Status) (r : Server) : Server :=
  mkServer (server_id r) (name r) (address r) (port r) (type r) (isActive r)
    (checkInterval r) (Some st) (stats r).

Definition add_totalChecks (n : Z) (s : Stats) : Stats :=
  mkStats (totalChecks s + n) (uptimeChecks s) (totalDowntime s).

Definition add_uptimeChecks (n : Z) (s : Stats) : Stats :=
  mkStats (totalChecks s) (uptimeChecks s + n) (totalDowntime s).

Definition add_totalDowntime (n : Z) (s : Stats) : Stats :=
  mkStats (totalChecks s) (uptimeChecks s) (totalDowntime s + n).

(** The status of the success branch, with the defaults for the fields the
    body leaves out. *)
Definition statusOf (d : ApiData) (elapsed now : Z) : Status :=
  mkStatus (data_online d)
    (Some (default (mkPlayers 0 0) (data_players d)))
    (Some (default (mkVersion (JStr "Unknown") (Some (-1))) (data_version d)))
    None elapsed now.

(** The [catch] branch of [checkServer], entered with the server as the
    [try] left it. *)
Definition checkFailed (server : Server) (message : string) (elapsed now : Z)
    (w : World) : Server * World :=
  let st := mkStatus false None None (Some message) elapsed now in
  let server := set_lastStatus st server in
  let server :=
    set_stats (add_totalDowntime (checkInterval server) (stats server)) server in
  let w := saveServer server w in
  (server, checkForIssues server st now w).

Definition undefined_online : string :=
  "Cannot read properties of undefined (reading 'online')".

(** [checkServer(server)]; the server document comes back because the
    function assigns to it. *)
Definition checkServer (server : Server) (probe : ProbeOutcome) (now : Z)
    (w : World) : Server * World :=
  let server := set_stats (add_totalChecks 1 (stats server)) server in
  match probe with
  | ProbeResponse (Some d) elapsed =>
      let st := statusOf d elapsed now in
      let server := set_lastStatus st server in
      let server :=
        if online st
        then set_stats (add_uptimeChecks 1 (stats server)) server
        else set_stats (add_totalDowntime (checkInterval server) (stats server))
               server in
      let w := saveServer server w in
      (server, checkForIssues server st now w)
  | ProbeResponse None elapsed => checkFailed server undefined_online elapsed now w
  | ProbeError message elapsed => checkFailed server message elapsed now w
  end.

(** [startMonitoring(server)]; [probe] is what the initial check meets. *)
Definition startMonitoring (server : Server) (probe : ProbeOutcome) (now : Z)
    (w : World) : Server * World :=
  let k := toString (server_id server) in
  let w :=
    match monitoring w !! k with
    | Some h => clearInterval h w
    | None => w
    end in
  let '(interval, w) := setInterval (PollJob (server_id server)) w in
  let w := set_monitoring (<[k := interval]> (monitoring w)) w in
  checkServer server probe now w.

(** [stopMonitoring(serverId)]; the argument is the key looked up. *)
Definition stopMonitoring (serverId : string) (w : World) : World :=
  match monitoring w !! serverId with
  | Some h => set_monitoring (delete serverId (monitoring w)) (clearInterval h w)
  | None => w
  end.

End Engine.
End ServerMonitor.

Import ServerMonitor.

(** ** Example data *)

(** A server used in the examples. *)
Definition lobby : Server :=
  mkServer 7%nat "Lobby" "play.example.net" 19132 "bedrock" true 10 None
    (mkStats 0 0 0).

(** ** The fan-out contract, in the words of the specification *)

Section Contract.

Variable provider : Channel -> jsval -> Template -> option string.

(** What a send call for a channel comes to: the error of a client that is
    not ready, else what the provider does. *)
Definition send_result (c : Channel) (to : jsval) (t : Template) (w : World)
    : option string :=
  match c with
  | Email =>
      if emailTransporter (clients w) then provider Email to t
      else Some "Email transporter not ready"
  | WhatsApp =>
      if whatsappReady (clients w) && whatsappClient (clients w)
      then provider WhatsApp to t
      else Some "WhatsApp client not ready"
  | Telegram =>
      if telegramReady (clients w) && telegramBot (clients w)
      then provider Telegram to t
      else Some "Telegram bot not ready"
  end.

(** The (channel, recipient) pairs of a fan-out: the admin address when
    email is enabled, the admin phone when WhatsApp is enabled and ready,
    every subscribed chat when Telegram is enabled and ready. *)
Definition emailTargets (w : World) : list (Channel * jsval) :=
  if truthy (getSetting w "email_enabled" (JBool false))
     && truthy (getSetting w "admin_email" JNull)
  then [(Email, getSetting w "admin_email" JNull)] else [].

Definition whatsappTargets (w : World) : list (Channel * jsval) :=
  if truthy (getSetting w "whatsapp_enabled" (JBool false))
     && truthy (getSetting w "admin_phone" JNull)
     && whatsappReady (clients w)
  then [(WhatsApp, getSetting w "admin_phone" JNull)] else [].

Definition telegramTargets (w : World) : list (Channel * jsval) :=
  if truthy (getSetting w "telegram_enabled" (JBool true))
     && telegramReady (clients w)
  then map (fun s => (Telegram, JStr (chatId_of s))) (subscribedChats w)
  else [].

Definition targets (w : World) : list (Channel * jsval) :=
  emailTargets w ++ whatsappTargets w ++ telegramTargets w.

(** The attempt made for a pair, with its outcome. *)
Definition attempt (t : Template) (w : World) (cr : Channel * jsval) : Delivery :=
  mkDelivery cr.1 cr.2 t (send_result cr.1 cr.2 t w).

(** The NotificationRecord of an attempt: [sent], or [failed] with the
    error text. *)
Definition recordOf (incident : IncidentDoc) (now : Z) (w : World)
    (cr : Channel * jsval) : Notification :=
  let r := send_result cr.1 cr.2 IncidentTemplate w in
  mkNotification (channel_name cr.1) (title (doc_row incident))
    (description (doc_row incident)) cr.2
    (if r is None then "sent" else "failed") r now.

(** The attempts of a fan-out that stops at the first failure: the pairs up
    to and including the first one whose send throws. *)
Fixpoint untilFailure (t : Template) (w : World) (l : list (Channel * jsval))
    : list (Channel * jsval) :=
  match l with
  | [] => []
  | cr :: l' =>
      match send_result cr.1 cr.2 t w with
      | None => cr :: untilFailure t w l'
      | Some _ => [cr]
      end
  end.

End Contract.

Arguments send_result : simpl never.

(** The element pushed onto the local [notifications] array for a pair. *)
Definition entryOf (provider : Channel -> jsval -> Template -> option string)
    (w : World) (cr : Channel * jsval) : Notif :=
  let r := send_result provider cr.1 cr.2 IncidentTemplate w in
  mkNotif (channel_name cr.1) cr.2 (if r is None then "sent" else "failed") r.

(** The world after the attempts [l] were made with template [t]. *)
Definition attempted (provider : Channel -> jsval -> Template -> option string)
    (t : Template) (l : list (Channel * jsval)) (w : World) : World :=
  set_outbox (outbox w ++ map (attempt provider t w) l) w.

(** ** The dedup invariant of the ledger *)

(** Rows have distinct ids, all below the next id to be handed out. *)
Definition wf_incidents (w : World) : Prop :=
  NoDup (map incident_id (incidents w))
  /\ Forall (fun i => (incident_id i < nextObjectId w)%nat) (incidents w).

(** An active incident of the pair (server, type). *)
Definition activePair (sid : ObjectId) (ty : string) (i : Incident) : bool :=
  Nat.eqb (serverId i) sid && String.eqb (incident_type i) ty
  && String.eqb (status i) "active".

(** [y] is not a duplicate of [x]: if both are active incidents of one
    pair, [y] was created more than a window after [x]. *)
Definition apart (x y : Incident) : Prop :=
  serverId x = serverId y -> incident_type x = incident_type y ->
  status x = "active" -> status y = "active" ->
  createdAt x + dedupWindow < createdAt y.

(** Every row is apart from the rows inserted before it. *)
Fixpoint separatedList (l : list Incident) : Prop :=
  match l with
  | [] => True
  | x :: l' => Forall (apart x) l' /\ separatedList l'
  end.

Definition separated (w : World) : Prop := separatedList (incidents w).

(** The active incidents of a pair created in the window that starts at
    [a]. *)
Definition activeInWindow (sid : ObjectId) (ty : string) (a : Z)
    (l : list Incident) : list Incident :=
  List.filter
    (fun i => activePair sid ty i && (a <=? createdAt i)
              && (createdAt i <=? a + dedupWindow)) l.

(** A run of detections of one issue of one server, at the times [ts]. *)
Definition detections (provider : Channel -> jsval -> Template -> option string)
    (server : Server) (issue : Issue) (ts : list Z) (w : World) : World :=
  foldl (fun w t => handleIssue provider server issue t w) w ts.

(** Providers used in the examples: one that always delivers, one whose
    mail server rejects every message. *)
Definition reliable : Channel -> jsval -> Template -> option string :=
  fun _ _ _ => None.

Definition mailDown : Channel -> jsval -> Template -> option string :=
  fun c _ _ => match c with Email => Some "SMTP timeout" | _ => None end.

(** Settings used in the examples: email and Telegram enabled, two chats
    subscribed and one that unsubscribed. *)
Definition exampleSettings : list Setting :=
  [ mkSetting "email_enabled" (JBool true);
    mkSetting "admin_email" (JStr "ops@example.net");
    mkSetting "telegram_subscribed_1001" (JBool true);
    mkSetting "telegram_subscribed_1002" (JBool false);
    mkSetting "telegram_subscribed_1003" (JBool true) ].

Definition allReady : Clients := mkClients true true true true true.

Definition exampleWorld : World := emptyWorld exampleSettings allReady.

(** The issue raised for [lobby] when a probe times out. *)
Definition lobbyOffline : Issue :=
  issue_offline lobby (mkStatus false None None (Some "timeout") 10000 0).

(** ** The scheduler registry *)

(** From [w] to [w'] no poll timer was armed or cleared; the timers armed
    since are recovery watchers under fresh handles. *)
Definition timersExtend (w w' : World) : Prop :=
  (nextTimer w <= nextTimer w')%nat
  /\ (forall h sid,
         timers w' !! h = Some (PollJob sid) -> timers w !! h = Some (PollJob sid))
  /\ (forall h sid,
         (h < nextTimer w)%nat -> timers w !! h = Some (PollJob sid) ->
         timers w' !! h = Some (PollJob sid))
  /\ (forall h,
         is_Some (timers w' !! h) ->
         is_Some (timers w !! h) \/ (nextTimer w <= h < nextTimer w')%nat).

(** The fields a function leaves as they were, and the timers it may add. *)
Definition framed (w w' : World) : Prop :=
  settings w' = settings w /\ clients w' = clients w
  /\ monitoring w' = monitoring w /\ timersExtend w w'.

(** The poll timers and the registry agree: a live poll timer of a server
    is the one registered under the server's id, a registered handle is a
    live poll timer of that server, and live handles are below the next
    handle. *)
Definition registryAgrees (w : World) : Prop :=
  (forall h sid,
      timers w !! h = Some (PollJob sid) ->
      monitoring w !! toString sid = Some h)
  /\ (forall k h,
         monitoring w !! k = Some h ->
         exists sid, k = toString sid /\ timers w !! h = Some (PollJob sid))
  /\ (forall h, is_Some (timers w !! h) -> (h < nextTimer w)%nat).

(** The state [startMonitoring] reaches before its initial check: the
    timer registered for the server, if any, is cleared, and a new one is
    armed and registered. *)
Definition armTimer (server : Server) (w : World) : World :=
  let k := toString (server_id server) in
  let w0 :=
    match monitoring w !! k with
    | Some h => clearInterval h w
    | None => w
    end in
  set_monitoring (<[k := nextTimer w0]> (monitoring w0))
    (setInterval (PollJob (server_id server)) w0).2.

(** What happens to a running engine: a call of [startMonitoring] or
    [stopMonitoring], a check (a poll timer firing, or a check on
    request), a recovery watcher firing, an incident resolved by hand. *)
Inductive EngineCall : Type :=
  | CallStart (server : Server) (probe : ProbeOutcome) (now : Z)
  | CallStop (serverId : string)
  | CallCheck (server : Server) (probe : ProbeOutcome) (now : Z)
  | CallFire (h : nat) (now : Z)
  | CallResolve (id : ObjectId) (now : Z).

Definition engineCall (provider : Channel -> jsval -> Template -> option string)
    (w : World) (c : EngineCall) : World :=
  match c with
  | CallStart server probe now => (startMonitoring provider server probe now w).2
  | CallStop serverId => stopMonitoring serverId w
  | CallCheck server probe now => (checkServer provider server probe now w).2
  | CallFire h now => fireRecovery provider h now w
  | CallResolve id now => resolveIncident id now w
  end.

Definition engineCalls (provider : Channel -> jsval -> Template -> option string)
    (cs : list EngineCall) (w : World) : World :=
  foldl (engineCall provider) w cs.

(** ** The recovery watcher, in the words of the specification *)

(** The persisted status of a server reports it online: what the watcher
    polls for. *)
Definition targetOnline (w : World) (sid : ObjectId) : bool :=
  match findServerById w sid with
  | Some currentServer =>
      match lastStatus currentServer with
      | Some st => online st
      | None => false
      end
  | None => false
  end.

(** The persisted row of a watched incident once the watcher has fired at
    [now]. *)
Definition resolvedRow (incident : IncidentDoc) (now : Z) : Incident :=
  set_resolvedAt (Some now) (set_status "resolved" (doc_row incident)).

(** An outage of [lobby] with an administrator stepping in: the probe at
    time 0 times out, which opens incident 0 and arms its watcher under
    handle 0; the incident is resolved by hand after one minute; the probe
    after two minutes finds the server online; the watcher fires after
    three minutes. *)
Definition outage : Server * World :=
  checkServer mailDown lobby (ProbeError "timeout" 800) 0 exampleWorld.

Definition resolvedByHand : World := resolveIncident 0%nat 60000 outage.2.

Definition backOnline : Server * World :=
  checkServer mailDown outage.1
    (ProbeResponse
       (Some (mkApiData true (Some (mkPlayers 2 20))
                (Some (mkVersion (JStr "1.21.0") (Some 700))))) 35)
    120000 resolvedByHand.

Definition watcherFired : World := fireRecovery mailDown 0%nat 180000 backOnline.2.

(** The server and the incident document that the watcher of the outage
    closes over. *)
Definition watched : Server * IncidentDoc :=
  match timers outage.2 !! 0%nat with
  | Some (RecoveryJob server incident) => (server, incident)
  | _ => (lobby, newIncident 0%nat lobby lobbyOffline 0)
  end.

(** The incident documents held by armed watchers were created by the
    ledger: their ids have been handed out. *)
Definition watchersKnown (w : World) : Prop :=
  forall h s i,
    timers w !! h = Some (RecoveryJob s i) ->
    (incident_id (doc_row i) < nextObjectId w)%nat.

(** The invariant of the ledger. *)
Definition ledgerInvariant (w : World) : Prop :=
  wf_incidents w /\ separated w /\ watchersKnown w.

(** ** Beyond the claims: settings writes and the bot's commands *)

From stdpp Require Import sorting.

Open Scope Z_scope.

Definition set_settings (l : list Setting) (w : World) : World :=
  mkWorld (incidents w) (notifications w) l (servers w) (outbox w) (timers w)
    (monitoring w) (incidentCheckers w) (nextTimer w) (nextObjectId w)
    (clients w).

(** [Setting.findOneAndUpdate({ key }, { value, ... }, { upsert: true })]:
    the row that has the key gets the value, or a row is inserted.  The
    [description] and [updatedAt] it also writes are read by nothing. *)
Fixpoint upsertSetting (k : string) (v : jsval) (l : list Setting)
    : list Setting :=
  match l with
  | [] => [mkSetting k v]
  | s :: l' =>
      if String.eqb (key s) k then mkSetting k v :: l'
      else s :: upsertSetting k v l'
  end.

(** [setSetting(key, value)]; it answers [true] when the write went
    through. *)
Definition setSetting (k : string) (v : jsval) (w : World) : bool * World :=
  (true, set_settings (upsertSetting k v (settings w)) w).

(** The loop of [POST /api/settings] over [Object.entries(updates)]. *)
Definition postSettings (updates : list (string * jsval)) (w : World) : World :=
  foldl (fun w kv => (setSetting kv.1 kv.2 w).2) w updates.

(** [toLowerCase] on the letters A to Z.  A character outside ASCII is
    left as it is; JavaScript maps it to a character outside ASCII or, for
    the Kelvin sign, to the letter k, and no command below has either, so
    the comparisons with the commands come out the same. *)
Definition lowerAscii (c : Ascii.ascii) : Ascii.ascii :=
  let n := Ascii.nat_of_ascii c in
  if ((65 <=? n) && (n <=? 90))%nat then Ascii.ascii_of_nat (n + 32) else c.

Fixpoint toLowerCase (s : string) : string :=
  match s with
  | EmptyString => EmptyString
  | String c s' => String (lowerAscii c) (toLowerCase s')
  end.

(** [text.split(' ')[0]] *)
Fixpoint firstWord (s : string) : string :=
  match s with
  | EmptyString => EmptyString
  | String c s' =>
      if String.eqb (String c EmptyString) " " then EmptyString
      else String c (firstWord s')
  end.

(** What the bot answers; the message text is a function of what the
    constructor carries. *)
Inductive Reply : Type :=
  | ReplyStart
  | ReplyNoServer
  | ReplyStatus (server : Server)
  | ReplySubscribed
  | ReplyUnsubscribed
  | ReplyNoAlerts
  | ReplyAlerts (alerts : list Incident)
  | ReplyUptime (servers : list Server)
  | ReplyHelp
  | ReplyError.

(** [`telegram_subscribed_${chatId}`] for the number [msg.chat.id]. *)
Definition subscriptionKey (chatId : Z) : string :=
  telegram_subscribed +:+ pretty chatId.

(** The window of [/alerts]: [24 * 60 * 60 * 1000] milliseconds. *)
Definition alertWindow : Z := 24 * 60 * 60 * 1000.

(** [sort({ createdAt: -1 })]: newest first. *)
Definition newerFirst (a b : Incident) : Prop := createdAt b <= createdAt a.

#[global] Instance newerFirst_dec : RelDecision newerFirst.
Proof. intros a b. unfold newerFirst. apply _. Defined.

#[global] Instance newerFirst_trans : Transitive newerFirst.
Proof. intros a b c. unfold newerFirst. lia. Qed.

#[global] Instance newerFirst_total : Total newerFirst.
Proof. intros a b. unfold newerFirst. lia. Qed.

(** The query of [/alerts]: the active incidents of the last 24 hours,
    newest first, five at most.  The order among incidents created at the
    same millisecond is the store's. *)
Definition recentAlerts (now : Z) (w : World) : list Incident :=
  take 5
    (merge_sort newerFirst
       (List.filter
          (fun i => String.eqb (status i) "active"
                    && (now - alertWindow <=? createdAt i))
          (incidents w))).

Section Bot.

(** What [telegramBot.sendMessage] does with a reply for a chat: [None]
    when it resolves, [Some message] when it throws. *)
Variable botSend : Z -> Reply -> option string.

(** A send inside the [try] of [handleTelegramCommand]: when it throws,
    the [catch] sends the error text. *)
Definition sendReply (chatId : Z) (r : Reply) : list (Reply * option string) :=
  match botSend chatId r with
  | None => [(r, None)]
  | Some e => [(r, Some e); (ReplyError, botSend chatId ReplyError)]
  end.

(** [handleTelegramCommand(chatId, text, msg)]: the state it leaves and
    the sends it made, with what each came to. *)
Definition handleTelegramCommand (chatId : Z) (text : string) (now : Z)
    (w : World) : World * list (Reply * option string) :=
  let command := toLowerCase (firstWord text) in
  if String.eqb command "/start" then (w, sendReply chatId ReplyStart)
  else if String.eqb command "/status" then
    match List.find isActive (servers w) with
    | None => (w, sendReply chatId ReplyNoServer)
    | Some server => (w, sendReply chatId (ReplyStatus server))
    end
  else if String.eqb command "/subscribe" then
    let '(_, w) := setSetting (subscriptionKey chatId) (JBool true) w in
    (w, sendReply chatId ReplySubscribed)
  else if String.eqb command "/unsubscribe" then
    let '(_, w) := setSetting (subscriptionKey chatId) (JBool false) w in
    (w, sendReply chatId ReplyUnsubscribed)
  else if String.eqb command "/alerts" then
    match recentAlerts now w with
    | [] => (w, sendReply chatId ReplyNoAlerts)
    | alerts => (w, sendReply chatId (ReplyAlerts alerts))
    end
  else if String.eqb command "/uptime" then
    (w, sendReply chatId (ReplyUptime (List.filter isActive (servers w))))
  else if String.eqb command "/help" then (w, sendReply chatId ReplyHelp)
  else (w, []).

End Bot.

(** ** Beyond the claims: diagnostics and the WhatsApp address *)

(** The object [getServerDiagnostics] returns. *)
Record Diagnostics : Type := mkDiagnostics {
  network : string;
  latency : Z;
  latencyStatus : string;
  playersConnected : Z;
  serverLoad : string;
  versionCompatibility : string
}.

(** [getServerDiagnostics(server, status)], where [status] is
    [server.lastStatus || {}]: [None] stands for the empty object of a
    server that was never checked.  On [undefined] every comparison is
    false.  The load test [online > max * 0.8] is on player counts, for
    which it is the integer test [5 * online > 4 * max]. *)
Definition getServerDiagnostics (server : Server) (st : option Status)
    : Diagnostics :=
  match st with
  | None => mkDiagnostics "unhealthy" 0 "poor" 0 "normal" "check_version"
  | Some s =>
      mkDiagnostics
        (if online s then "healthy" else "unhealthy")
        (responseTime s)
        (if responseTime s <? 100 then "excellent"
         else if responseTime s <? 300 then "good"
         else if responseTime s <? 500 then "fair"
         else "poor")
        (match players s with Some p => players_online p | None => 0 end)
        (match players s with
         | Some p =>
             if 4 * players_max p <? 5 * players_online p then "high"
             else "normal"
         | None => "normal"
         end)
        (match version s with
         | Some v =>
             match version_protocol v with
             | Some p => if p =? 671 then "compatible" else "check_version"
             | None => "check_version"
             end
         | None => "check_version"
         end)
  end.





(** ** Beyond the claims: start-up and the server routes *)

(** A value used as a key of a [Map].  The registry is filled with
    strings only, and [Map] compares an object with nothing but itself:
    an [ObjectId] passed as a key is the key of no entry. *)
Inductive MapKey : Type :=
  | StringKey (s : string)
  | ObjectIdKey (id : ObjectId).

(** [server.deleteOne()]: the row that has the document's [_id] goes. *)
Fixpoint removeServer (id : ObjectId) (l : list Server) : list Server :=
  match l with
  | [] => []
  | x :: l' => if Nat.eqb (server_id x) id then l' else x :: removeServer id l'
  end.

Definition deleteServerRow (id : ObjectId) (w : World) : World :=
  set_servers (removeServer id (servers w)) w.

(** The default server of [checkDefaultData], with the defaults of
    [serverSchema]. *)
Definition defaultServer (id : ObjectId) : Server :=
  mkServer id "Forexter Network" "basic-6.alstore.space" 25710 "bedrock" true
    10 None (mkStats 0 0 0).

(** [defaultSettings], in the order of its entries. *)
Definition defaultSettings : list (string * jsval) :=
  [ ("email_enabled", JBool false);
    ("telegram_enabled", JBool true);
    ("whatsapp_enabled", JBool false);
    ("notify_critical", JBool true);
    ("notify_warning", JBool true);
    ("notify_info", JBool false);
    ("check_interval", JNum 10);
    ("admin_email", JStr "admin@forexter.network");
    ("admin_phone", JStr "");
    ("smtp_host", JStr "smtp.gmail.com");
    ("smtp_port", JNum 587);
    ("smtp_user", JStr "");
    ("smtp_password", JStr "");
    ("smtp_from", JStr "Forexter Monitor") ].

(** The body of the loop of [checkDefaultData] over the default settings:
    [Setting.findOne({ key })], and [setSetting] when there is no row. *)
Definition ensureSetting (w : World) (kv : string * jsval) : World :=
  match List.find (fun s => String.eqb (key s) kv.1) (settings w) with
  | Some _ => w
  | None => (setSetting kv.1 kv.2 w).2
  end.

(** The loop. *)
Definition ensureSettings (defaults : list (string * jsval)) (w : World) : World :=
  foldl ensureSetting w defaults.

(** [checkDefaultData()], on the collections the engine reads: the default
    server when there is no server at all, then the default settings.  The
    admin user it creates first is a row of the User collection, which
    the engine never reads. *)
Definition checkDefaultData (w : World) : World :=
  let w :=
    match servers w with
    | [] =>
        set_nextObjectId (S (nextObjectId w))
          (saveServer (defaultServer (nextObjectId w)) w)
    | _ :: _ => w
    end in
  ensureSettings defaultSettings w.

Section Callers.

Variable provider : Channel -> jsval -> Template -> option string.

(** [stopMonitoring(serverId)] for any value passed as [serverId]. *)
Definition stopMonitoringKey (k : MapKey) (w : World) : World :=
  match k with
  | StringKey s => stopMonitoring s w
  | ObjectIdKey _ => w
  end.

(** [loadServers()]: monitoring is started for every active server that
    [ServerModel.find({ isActive: true })] returned; [probes] is what the
    initial check of each server meets. *)
Definition loadServers (probes : ObjectId -> ProbeOutcome) (now : Z) (w : World)
    : World :=
  foldl (fun w server =>
           (startMonitoring provider server (probes (server_id server)) now w).2)
    w (List.filter isActive (servers w)).

(** The handler of [DELETE /api/servers/:id], past authentication: an
    unknown id answers 404; else [stopMonitoring] is called with the
    document's [_id] and the row is deleted. *)
Definition deleteServer (id : ObjectId) (w : World) : World :=
  match findServerById w id with
  | None => w
  | Some server =>
      let w := stopMonitoringKey (ObjectIdKey (server_id server)) w in
      deleteServerRow (server_id server) w
  end.

(** The handler of [PUT /api/servers/:id], past authentication.  [update]
    is what the body does to the stored row (an update that changes [_id]
    is refused by the store); [probe] is what the initial check meets
    when monitoring is started again.  For an unknown id the read of
    [server.isActive] throws and the handler answers 500. *)
Definition putServer (id : ObjectId) (update : Server -> Server)
    (probe : ProbeOutcome) (now : Z) (w : World) : World :=
  match findServerById w id with
  | None => w
  | Some row =>
      let server := update row in
      if negb (Nat.eqb (server_id server) (server_id row)) then w
      else
        let w := saveServer server w in
        if isActive server
        then (startMonitoring provider server probe now w).2
        else stopMonitoringKey (ObjectIdKey (server_id server)) w
  end.


End Callers.


(** A second, inactive server, and a store holding both. *)
Definition creative : Server :=
  mkServer 8%nat "Creative" "creative.example.net" 19133 "bedrock" false 30
    None (mkStats 0 0 0).

Definition twoServers : World := set_servers [lobby; creative] exampleWorld.

(** Every probe answers: online, 3 of 20 players, a current version. *)
Definition allOnline : ObjectId -> ProbeOutcome :=
  fun _ =>
    ProbeResponse
      (Some (mkApiData true (Some (mkPlayers 3 20))
               (Some (mkVersion (JStr "1.21.0") (Some 700))))) 40.

(** * Properties *)

(** ** Issue detection *)

Section Detector.

Variables (server : Server) (st : Status).

Lemma is_full_Some p :
  is_full st = Some p <->
  players st = Some p /\ players_online p = players_max p /\ 0 < players_max p.
Proof.
  unfold is_full. destruct (players st) as [q|].
  - destruct (Z.eqb_spec (players_online q) (players_max q)) as [He|He];
      destruct (Z.ltb_spec 0 (players_max q)) as [Hl|Hl]; simpl; split;
      try (intros [= <-]; auto); try discriminate;
      intros ([= <-] & ? & ?); try reflexivity; lia.
  - split; [discriminate | intros [? _]; discriminate].
Qed.

Lemma is_old_version_Some v :
  is_old_version st = Some v <->
  version st = Some v /\
  exists p, version_protocol v = Some p /\ p <> 0 /\ p < minProtocol.
Proof.
  unfold is_old_version. destruct (version st) as [u|].
  - destruct (version_protocol u) as [p|] eqn:Hp.
    + destruct (Z.eqb_spec p 0) as [He|He];
        destruct (Z.ltb_spec p minProtocol) as [Hl|Hl]; simpl; split;
        try (intros [= <-]; split; [reflexivity | exists p; auto]);
        try discriminate;
        intros ([= <-] & q & Hq & ? & ?); rewrite Hp in Hq;
        injection Hq as <-; try reflexivity; lia.
    + split; [discriminate |].
      intros ([= <-] & q & Hq & _). rewrite Hp in Hq. discriminate.
  - split; [discriminate | intros [? _]; discriminate].
Qed.

(** The array is the concatenation of what each test contributes. *)
Lemma detectIssues_app :
  detectIssues server st =
    (if negb (online st) then [issue_offline server st] else [])
    ++ (if 1000 <? responseTime st then [issue_latency server st] else [])
    ++ match is_full st with Some p => [issue_full server p] | None => [] end
    ++ match is_old_version st with
       | Some v => [issue_version server v]
       | None => []
       end.
Proof.
  unfold detectIssues.
  destruct (negb (online st)), (1000 <? responseTime st), (is_full st),
    (is_old_version st); reflexivity.
Qed.

End Detector.

(** C5, counterexample: a healthy, fast, half-empty result whose protocol
    number is present and below the minimum, namely 0, raises no issue:
    the presence test of the version rule is a truthiness test. *)
Lemma detectIssues_protocol_zero :
  let st :=
    mkStatus true (Some (mkPlayers 1 10))
      (Some (mkVersion (JStr "1.0.0") (Some 0))) None 50 0 in
  (exists v p,
      version st = Some v /\ version_protocol v = Some p /\ p < minProtocol)
  /\ detectIssues lobby st = [].
Proof.
  split; [|reflexivity].
  exists (mkVersion (JStr "1.0.0") (Some 0)), 0. repeat split.
Qed.

(** C5, amended: the issues raised for a result are exactly those of the
    rules that match, each at most once and whatever the other rules do:
    offline gives server_offline/critical, a latency over 1000 ms gives
    high_latency/warning, players online equal to a positive max gives
    full_capacity/warning, a protocol number that is present, not zero and
    below 671 gives version_mismatch/info; a result matching no rule
    raises nothing. *)
Theorem detectIssues_rules (server : Server) (st : Status) :
  (forall i,
      In i (detectIssues server st) <->
      (online st = false /\ i = issue_offline server st
       /\ issue_type i = "server_offline" /\ issue_severity i = "critical")
      \/ (1000 < responseTime st /\ i = issue_latency server st
          /\ issue_type i = "high_latency" /\ issue_severity i = "warning")
      \/ (exists p,
             players st = Some p /\ players_online p = players_max p
             /\ 0 < players_max p /\ i = issue_full server p
             /\ issue_type i = "full_capacity" /\ issue_severity i = "warning")
      \/ (exists v p,
             version st = Some v /\ version_protocol v = Some p
             /\ p <> 0 /\ p < minProtocol /\ i = issue_version server v
             /\ issue_type i = "version_mismatch" /\ issue_severity i = "info"))
  /\ NoDup (detectIssues server st)
  /\ (online st = true -> responseTime st <= 1000 -> is_full st = None ->
      is_old_version st = None -> detectIssues server st = []).
Proof.
  rewrite detectIssues_app. split; [|split].
  - intros i. rewrite !in_app_iff. split.
    + intros [H|[H|[H|H]]].
      * destruct (online st); simpl in H; [contradiction|].
        destruct H as [<-|[]]. left. auto.
      * destruct (Z.ltb_spec 1000 (responseTime st)); simpl in H; [|contradiction].
        destruct H as [<-|[]]. right; left. auto.
      * destruct (is_full st) as [p|] eqn:Hp; simpl in H; [|contradiction].
        destruct H as [<-|[]]. apply is_full_Some in Hp as (? & ? & ?).
        right; right; left. exists p. auto 10.
      * destruct (is_old_version st) as [v|] eqn:Hv; simpl in H; [|contradiction].
        destruct H as [<-|[]].
        apply is_old_version_Some in Hv as (? & p & ? & ? & ?).
        right; right; right. exists v, p. auto 10.
    + intros [(Ho & -> & _)|[(Hl & -> & _)|[(p & H1 & H2 & H3 & -> & _)
                                          |(v & p & H1 & H2 & H3 & H4 & -> & _)]]].
      * left. rewrite Ho. simpl. auto.
      * right; left. apply Z.ltb_lt in Hl. rewrite Hl. simpl. auto.
      * right; right; left.
        assert (is_full st = Some p) as -> by (apply is_full_Some; auto).
        simpl. auto.
      * right; right; right.
        assert (is_old_version st = Some v) as ->
            by (apply is_old_version_Some; eauto).
        simpl. auto.
  - destruct (negb (online st)), (1000 <? responseTime st), (is_full st),
      (is_old_version st); simpl;
      repeat (apply NoDup_cons; split;
              [rewrite ?elem_of_cons, elem_of_nil; unfold issue_offline,
                 issue_latency, issue_full, issue_version;
               intuition discriminate|]);
      apply NoDup_nil; exact I.
  - intros Ho Hl -> ->. rewrite Ho.
    destruct (Z.ltb_spec 1000 (responseTime st)); [lia|]. reflexivity.
Qed.

(** One result may raise several issues: a probe that fails after 10
    seconds is offline and slow. *)
Example timeout_raises_two_issues :
  map issue_type
    (detectIssues lobby (mkStatus false None None (Some "timeout") 10000 0))
  = ["server_offline"; "high_latency"].
Proof. reflexivity. Qed.

(** C10: a response without version metadata gets the protocol number -1;
    -1 passes the presence test and is below 671, so the result raises
    version_mismatch/info, and raises nothing else when the target is
    online, fast and not full. *)
Theorem missing_version_is_old (server : Server) (d : ApiData) (elapsed now : Z) :
  data_version d = None ->
  let st := statusOf d elapsed now in
  let unknown := mkVersion (JStr "Unknown") (Some (-1)) in
  version st = Some unknown
  /\ In (issue_version server unknown) (detectIssues server st)
  /\ issue_type (issue_version server unknown) = "version_mismatch"
  /\ issue_severity (issue_version server unknown) = "info"
  /\ (data_online d = true -> elapsed <= 1000 -> is_full st = None ->
      detectIssues server st = [issue_version server unknown]).
Proof.
  intros Hv st unknown.
  assert (Hst : version st = Some unknown).
  { unfold st, statusOf. simpl. rewrite Hv. reflexivity. }
  assert (Hold : is_old_version st = Some unknown).
  { apply is_old_version_Some. split; [exact Hst|].
    exists (-1). unfold minProtocol. simpl. repeat split; lia. }
  split; [exact Hst|]. split; [|split; [reflexivity|split; [reflexivity|]]].
  - rewrite detectIssues_app, Hold, !in_app_iff. do 3 right. left. reflexivity.
  - intros Ho Hl Hf. rewrite detectIssues_app, Hold, Hf.
    unfold st, statusOf at 1 2. simpl. rewrite Ho.
    destruct (Z.ltb_spec 1000 elapsed); [lia|]. reflexivity.
Qed.

Lemma missing_version_is_old_witness :
  let d := mkApiData true (Some (mkPlayers 3 20)) None in
  detectIssues lobby (statusOf d 42 1000)
  = [issue_version lobby (mkVersion (JStr "Unknown") (Some (-1)))].
Proof.
  intros d.
  apply (missing_version_is_old lobby d 42 1000 eq_refl);
    [reflexivity | lia | reflexivity].
Defined.

(** ** Sends and the fan-out of an incident *)

Section Dispatch.

Variable provider : Channel -> jsval -> Template -> option string.

Lemma attempted_nil t w : attempted provider t [] w = w.
Proof. unfold attempted. simpl. rewrite app_nil_r. destruct w; reflexivity. Qed.

Lemma attempted_app t l1 l2 w :
  attempted provider t l2 (attempted provider t l1 w)
  = attempted provider t (l1 ++ l2) w.
Proof.
  unfold attempted. destruct w; simpl. unfold set_outbox; simpl.
  rewrite map_app, app_assoc. reflexivity.
Qed.

Lemma sendEmail_eq to t w :
  sendEmail provider to t w
  = (send_result provider Email to t w, attempted provider t [(Email, to)] w).
Proof.
  unfold sendEmail, attempted, attempt, send_result, deliver. simpl.
  destruct (emailTransporter (clients w)); reflexivity.
Qed.

Lemma sendWhatsAppMessage_eq to t w :
  sendWhatsAppMessage provider to t w
  = (send_result provider WhatsApp to t w,
     attempted provider t [(WhatsApp, to)] w).
Proof.
  unfold sendWhatsAppMessage, attempted, attempt, send_result, deliver. simpl.
  destruct (whatsappReady (clients w)), (whatsappClient (clients w));
    reflexivity.
Qed.

Lemma sendTelegramMessage_eq to t w :
  sendTelegramMessage provider to t w
  = (send_result provider Telegram to t w,
     attempted provider t [(Telegram, to)] w).
Proof.
  unfold sendTelegramMessage, attempted, attempt, send_result, deliver. simpl.
  destruct (telegramReady (clients w)), (telegramBot (clients w)); reflexivity.
Qed.

Lemma pushOutcome_entryOf c to w notifs :
  pushOutcome c to (send_result provider c to IncidentTemplate w) notifs
  = notifs ++ [entryOf provider w (c, to)].
Proof.
  unfold pushOutcome, entryOf. simpl.
  destruct (send_result provider c to IncidentTemplate w); reflexivity.
Qed.

(** The Telegram loop attempts every chat, whatever the earlier attempts
    came to. *)
Lemma telegramLoop_eq chats : forall notifs w,
  let l := map (fun s => (Telegram, JStr (chatId_of s))) chats in
  telegramLoop provider chats notifs w
  = (notifs ++ map (entryOf provider w) l,
     attempted provider IncidentTemplate l w).
Proof.
  induction chats as [|s chats IH]; intros notifs w; simpl.
  - rewrite app_nil_r, attempted_nil. reflexivity.
  - rewrite sendTelegramMessage_eq, IH, pushOutcome_entryOf.
    rewrite attempted_app, <- app_assoc. reflexivity.
Qed.

Lemma truthy_js_and a b : truthy (js_and a b) = truthy a && truthy b.
Proof. unfold js_and. destruct (truthy a) eqn:E; simpl; auto. Qed.

Lemma targets_attempted t l w : targets (attempted provider t l w) = targets w.
Proof. reflexivity. Qed.

Lemma entryOf_attempted t l w cr :
  entryOf provider (attempted provider t l w) cr = entryOf provider w cr.
Proof. reflexivity. Qed.

Lemma emailBlock_eq notifs w :
  emailBlock provider notifs w
  = (notifs ++ map (entryOf provider w) (emailTargets w),
     attempted provider IncidentTemplate (emailTargets w) w).
Proof.
  unfold emailBlock, emailTargets. rewrite truthy_js_and.
  destruct (_ && _).
  - rewrite sendEmail_eq, pushOutcome_entryOf. reflexivity.
  - simpl. rewrite app_nil_r, attempted_nil. reflexivity.
Qed.

Lemma whatsappBlock_eq notifs w :
  whatsappBlock provider notifs w
  = (notifs ++ map (entryOf provider w) (whatsappTargets w),
     attempted provider IncidentTemplate (whatsappTargets w) w).
Proof.
  unfold whatsappBlock, whatsappTargets. rewrite truthy_js_and.
  destruct (_ && _ && _).
  - rewrite sendWhatsAppMessage_eq, pushOutcome_entryOf. reflexivity.
  - simpl. rewrite app_nil_r, attempted_nil. reflexivity.
Qed.

Lemma telegramBlock_eq notifs w :
  telegramBlock provider notifs w
  = (notifs ++ map (entryOf provider w) (telegramTargets w),
     attempted provider IncidentTemplate (telegramTargets w) w).
Proof.
  unfold telegramBlock, telegramTargets.
  destruct (_ && _).
  - apply telegramLoop_eq.
  - simpl. rewrite app_nil_r, attempted_nil. reflexivity.
Qed.

Lemma saveNotifications_eq incident now notifs : forall w,
  saveNotifications incident now notifs w
  = set_notifications
      (notifications w ++ map (notificationOf incident now) notifs) w.
Proof.
  unfold saveNotifications.
  induction notifs as [|n notifs IH]; intros w; simpl.
  - rewrite app_nil_r. destruct w; reflexivity.
  - rewrite IH. simpl. rewrite <- app_assoc. destruct w; reflexivity.
Qed.

Lemma notificationOf_entryOf incident now w cr :
  notificationOf incident now (entryOf provider w cr)
  = recordOf provider incident now w cr.
Proof. reflexivity. Qed.

(** The dispatcher in closed form: every pair of [targets] is attempted,
    one record is written per pair, and the flag is set. *)
Lemma sendIncidentNotifications_eq incident server now w :
  truthy (shouldSend w (severity (doc_row incident))) = true ->
  sendIncidentNotifications provider incident server now w
  = (on_row (set_notificationsSent true) incident,
     saveIncident (on_row (set_notificationsSent true) incident)
       (set_notifications
          (notifications w ++ map (recordOf provider incident now w) (targets w))
          (attempted provider IncidentTemplate (targets w) w))).
Proof.
  intros Hs. unfold sendIncidentNotifications. rewrite Hs. simpl negb. cbv iota.
  rewrite emailBlock_eq, whatsappBlock_eq, telegramBlock_eq.
  rewrite saveNotifications_eq. simpl app at 1.
  rewrite !attempted_app.
  change (whatsappTargets
            (attempted provider IncidentTemplate (emailTargets w) w))
    with (whatsappTargets w).
  change (telegramTargets
            (attempted provider IncidentTemplate
               (emailTargets w ++ whatsappTargets w) w))
    with (telegramTargets w).
  rewrite <- app_assoc. fold (targets w).
  rewrite map_app, map_app, !map_map.
  f_equal. f_equal. f_equal.
  - unfold targets. rewrite !map_app. reflexivity.
  - unfold targets. rewrite app_assoc. reflexivity.
Qed.

Lemma sendIncidentNotifications_gated incident server now w :
  truthy (shouldSend w (severity (doc_row incident))) = false ->
  sendIncidentNotifications provider incident server now w = (incident, w).
Proof. intros Hs. unfold sendIncidentNotifications. rewrite Hs. reflexivity. Qed.

End Dispatch.

(** ** The Incident collection *)

Section Collection.

Lemma upsertIncident_fresh r l :
  ~ In (incident_id r) (map incident_id l) -> upsertIncident r l = l ++ [r].
Proof.
  induction l as [|x l IH]; simpl; intros Hn; [reflexivity|].
  destruct (Nat.eqb_spec (incident_id x) (incident_id r)) as [E|E].
  - exfalso. apply Hn. left. exact E.
  - rewrite IH; [reflexivity|]. intros Hi. apply Hn. right. exact Hi.
Qed.

Lemma upsertIncident_last r r' l :
  ~ In (incident_id r) (map incident_id l) -> incident_id r' = incident_id r ->
  upsertIncident r' (l ++ [r]) = l ++ [r'].
Proof.
  intros Hn Hid. induction l as [|x l IH]; simpl.
  - rewrite Hid, Nat.eqb_refl. reflexivity.
  - destruct (Nat.eqb_spec (incident_id x) (incident_id r')) as [E|E].
    + exfalso. apply Hn. left. congruence.
    + rewrite IH; [reflexivity|]. intros Hi. apply Hn. right. exact Hi.
Qed.

(** Saving a row that is in the collection and was not changed writes
    nothing new. *)
Lemma upsertIncident_self r l :
  NoDup (map incident_id l) -> In r l -> upsertIncident r l = l.
Proof.
  induction l as [|x l IH]; simpl; intros Hnd Hin; [contradiction|].
  apply NoDup_cons in Hnd as [Hx Hnd].
  destruct (Nat.eqb_spec (incident_id x) (incident_id r)) as [E|E].
  - destruct Hin as [->|Hin]; [reflexivity|].
    exfalso. apply Hx. rewrite E. apply list_elem_of_In, in_map. exact Hin.
  - destruct Hin as [->|Hin]; [contradiction|]. rewrite IH; auto.
Qed.

Lemma fresh_id w :
  wf_incidents w -> ~ In (nextObjectId w) (map incident_id (incidents w)).
Proof.
  intros [_ Hlt] Hin. apply in_map_iff in Hin as (i & Hi & Hin).
  rewrite Forall_forall in Hlt. apply list_elem_of_In, Hlt in Hin. lia.
Qed.

Lemma separatedList_snoc l r :
  separatedList l -> Forall (fun x => apart x r) l -> separatedList (l ++ [r]).
Proof.
  induction l as [|x l IH]; simpl; intros Hs Hr.
  - split; [constructor | exact I].
  - destruct Hs as [Hx Hs]. apply Forall_cons in Hr as [Hxr Hr]. split.
    + apply Forall_app. split; [exact Hx|]. constructor; [exact Hxr|constructor].
    + apply IH; assumption.
Qed.

(** In a separated collection a window of 30 minutes holds at most one
    active incident of a pair. *)
Lemma separatedList_window sid ty a l :
  separatedList l -> (length (activeInWindow sid ty a l) <= 1)%nat.
Proof.
  unfold activeInWindow.
  induction l as [|x l IH]; simpl; intros Hs; [lia|].
  destruct Hs as [Hx Hs]. specialize (IH Hs).
  destruct (activePair sid ty x && (a <=? createdAt x)
            && (createdAt x <=? a + dedupWindow)) eqn:Ex; [|exact IH].
  simpl. apply le_n_S. apply Nat.le_0_r, length_zero_iff_nil.
  apply andb_prop in Ex as [Ex Ex3]. apply andb_prop in Ex as [Ex1 Ex2].
  unfold activePair in Ex1.
  apply andb_prop in Ex1 as [Ex1 Es]. apply andb_prop in Ex1 as [Ei Et].
  clear IH Hs. induction l as [|y l IH]; simpl; [reflexivity|].
  apply Forall_cons in Hx as [Hxy Hx].
  destruct (activePair sid ty y && (a <=? createdAt y)
            && (createdAt y <=? a + dedupWindow)) eqn:Ey; [|apply IH, Hx].
  exfalso.
  apply andb_prop in Ey as [Ey Ey3]. apply andb_prop in Ey as [Ey1 Ey2].
  unfold activePair in Ey1.
  apply andb_prop in Ey1 as [Ey1 Eys]. apply andb_prop in Ey1 as [Eyi Eyt].
  apply Nat.eqb_eq in Ei, Eyi. apply String.eqb_eq in Et, Es, Eyt, Eys.
  assert (createdAt x + dedupWindow < createdAt y) by (apply Hxy; congruence).
  lia.
Qed.

End Collection.

(** ** The ledger: [handleIssue] *)

Section Ledger.

Variable provider : Channel -> jsval -> Template -> option string.

Lemma findActiveIncident_Some w sid ty now e :
  findActiveIncident w sid ty now = Some e ->
  In e (incidents w) /\ activePair sid ty e = true
  /\ now - dedupWindow <= createdAt e.
Proof.
  intros H. apply find_some in H as [Hin Hm]. split; [exact Hin|].
  unfold matchesActive in Hm. apply andb_prop in Hm as [Ha Hc].
  split; [exact Ha | apply Z.leb_le, Hc].
Qed.

Lemma findActiveIncident_None w sid ty now i :
  findActiveIncident w sid ty now = None -> In i (incidents w) ->
  activePair sid ty i = true -> createdAt i < now - dedupWindow.
Proof.
  intros H Hin Ha. apply (find_none _ _ H) in Hin.
  unfold matchesActive in Hin. fold (activePair sid ty i) in Hin.
  rewrite Ha in Hin. simpl in Hin. apply Z.leb_gt, Hin.
Qed.

(** A detection that finds an active incident in the window leaves the
    whole state as it was. *)
Lemma handleIssue_found server issue now w e :
  wf_incidents w ->
  findActiveIncident w (server_id server) (issue_type issue) now = Some e ->
  handleIssue provider server issue now w = w.
Proof.
  intros [Hnd _] He. unfold handleIssue. rewrite He.
  apply findActiveIncident_Some in He as [Hin _].
  unfold saveIncident, assign. simpl.
  rewrite upsertIncident_self by assumption. destruct w; reflexivity.
Qed.

(** The row a detection inserts when it finds none, once the dispatcher
    has run: [b] tells whether the severity was enabled. *)
Lemma handleIssue_new server issue now w :
  wf_incidents w ->
  findActiveIncident w (server_id server) (issue_type issue) now = None ->
  let b := truthy (shouldSend w (issue_severity issue)) in
  let incident := newIncident (nextObjectId w) server issue now in
  let w' := handleIssue provider server issue now w in
  incidents w' = incidents w ++ [set_notificationsSent b (doc_row incident)]
  /\ nextObjectId w' = S (nextObjectId w)
  /\ notifications w'
     = notifications w
       ++ (if b then map (recordOf provider incident now w) (targets w) else [])
  /\ outbox w'
     = outbox w
       ++ (if b then map (attempt provider IncidentTemplate w) (targets w) else [])
  /\ settings w' = settings w /\ servers w' = servers w
  /\ clients w' = clients w /\ monitoring w' = monitoring w.
Proof.
  intros Hwf Hnone b incident w'. subst w'. unfold handleIssue. rewrite Hnone.
  fold incident.
  set (w1 := saveIncident incident (set_nextObjectId (S (nextObjectId w)) w)).
  assert (Hfresh := fresh_id w Hwf).
  assert (Hinc1 : incidents w1 = incidents w ++ [doc_row incident]).
  { unfold w1, saveIncident. simpl. apply upsertIncident_fresh. exact Hfresh. }
  destruct b eqn:Hb.
  - rewrite sendIncidentNotifications_eq by exact Hb.
    set (w2 := saveIncident _ _).
    assert (Hinc2 : incidents w2
                    = incidents w ++ [set_notificationsSent true (doc_row incident)]).
    { change (incidents w2)
        with (upsertIncident (set_notificationsSent true (doc_row incident))
                (incidents w1)).
      rewrite Hinc1.
      apply upsertIncident_last; [exact Hfresh | reflexivity]. }
    destruct (String.eqb (issue_type issue) "server_offline");
      (split; [exact Hinc2|]); repeat split; rewrite ?app_nil_r; reflexivity.
  - rewrite sendIncidentNotifications_gated by exact Hb.
    assert (Hrow : set_notificationsSent false (doc_row incident) = doc_row incident)
      by reflexivity.
    rewrite Hrow.
    destruct (String.eqb (issue_type issue) "server_offline");
      (split; [exact Hinc1|]); repeat split; simpl; rewrite ?app_nil_r; reflexivity.
Qed.

Lemma handleIssue_preserves server issue now w :
  wf_incidents w -> separated w ->
  wf_incidents (handleIssue provider server issue now w)
  /\ separated (handleIssue provider server issue now w).
Proof.
  intros Hwf Hsep.
  destruct (findActiveIncident w (server_id server) (issue_type issue) now)
    as [e|] eqn:He.
  - rewrite (handleIssue_found _ _ _ _ _ Hwf He). auto.
  - destruct (handleIssue_new server issue now w Hwf He) as (Hi & Hn & _).
    unfold wf_incidents, separated. rewrite Hi, Hn. split; [split|].
    + rewrite map_app. simpl. apply NoDup_app. pose proof Hwf as [Hnd _].
      split; [exact Hnd|]. split; [|apply NoDup_singleton].
      intros x Hx Hx'. apply list_elem_of_singleton in Hx'. subst x.
      apply list_elem_of_In in Hx. exact (fresh_id w Hwf Hx).
    + pose proof Hwf as [_ Hlt]. apply Forall_app. split.
      * eapply Forall_impl; [exact Hlt|]. simpl. intros; lia.
      * constructor; [simpl; lia | constructor].
    + apply separatedList_snoc; [exact Hsep|].
      apply Forall_forall. intros x Hx Hs Ht Hax _. simpl in *.
      apply list_elem_of_In in Hx.
      assert (createdAt x < now - dedupWindow); [|lia].
      apply (findActiveIncident_None _ _ _ _ _ He Hx).
      unfold activePair. rewrite Hs, Ht, Hax, Nat.eqb_refl, !String.eqb_refl.
      reflexivity.
Qed.

Lemma detections_preserve server issue ts : forall w,
  wf_incidents w -> separated w ->
  wf_incidents (detections provider server issue ts w)
  /\ separated (detections provider server issue ts w).
Proof.
  induction ts as [|t ts IH]; intros w Hwf Hsep; simpl; [auto|].
  destruct (handleIssue_preserves server issue t w Hwf Hsep). apply IH; auto.
Qed.

(** Detections that all find an incident leave the state as it was. *)
Lemma detections_found server issue ts w :
  wf_incidents w ->
  Forall (fun t =>
            is_Some (findActiveIncident w (server_id server) (issue_type issue) t))
    ts ->
  detections provider server issue ts w = w.
Proof.
  intros Hwf. induction ts as [|t ts IH]; intros Hts; simpl; [reflexivity|].
  apply Forall_cons in Hts as [[e He] Hts].
  rewrite (handleIssue_found _ _ _ _ _ Hwf He). apply IH, Hts.
Qed.

(** C1: a detection that finds an active incident of its (server, type)
    pair created within the last 30 minutes creates nothing and dispatches
    nothing (the state is unchanged); an incident is created only when
    none is found; the detections that follow the creating one within 30
    minutes change nothing; and after any such run a window of 30 minutes
    holds at most one active incident of any pair. *)
Theorem dedup_window (server : Server) (issue : Issue) (t0 : Z) (ts : list Z)
    (w : World) :
  wf_incidents w -> separated w ->
  Forall (fun t => t0 <= t <= t0 + dedupWindow) ts ->
  let sid := server_id server in
  let ty := issue_type issue in
  let w1 := handleIssue provider server issue t0 w in
  let wn := detections provider server issue ts w1 in
  (forall e, findActiveIncident w sid ty t0 = Some e -> w1 = w)
  /\ (incidents w1 <> incidents w -> findActiveIncident w sid ty t0 = None)
  /\ (findActiveIncident w sid ty t0 = None ->
      (exists row,
          incidents w1 = incidents w ++ [row]
          /\ activePair sid ty row = true /\ createdAt row = t0)
      /\ wn = w1)
  /\ separated wn
  /\ (forall sid' ty' a,
         (length (activeInWindow sid' ty' a (incidents wn)) <= 1)%nat).
Proof.
  intros Hwf Hsep Hts sid ty w1 wn.
  destruct (handleIssue_preserves server issue t0 w Hwf Hsep) as [Hwf1 Hsep1].
  fold w1 in Hwf1, Hsep1.
  destruct (detections_preserve server issue ts w1 Hwf1 Hsep1) as [_ Hsepn].
  fold wn in Hsepn.
  split; [|split; [|split; [|split]]].
  - intros e He. exact (handleIssue_found _ _ _ _ _ Hwf He).
  - intros Hne. destruct (findActiveIncident w sid ty t0) as [e|] eqn:He;
      [|reflexivity].
    exfalso. apply Hne. unfold w1.
    rewrite (handleIssue_found _ _ _ _ _ Hwf He). reflexivity.
  - intros He. destruct (handleIssue_new server issue t0 w Hwf He) as (Hi & _).
    fold w1 in Hi. split.
    + eexists. split; [exact Hi|]. split; [|reflexivity].
      unfold activePair. simpl. rewrite Nat.eqb_refl, String.eqb_refl.
      reflexivity.
    + apply detections_found; [exact Hwf1|].
      eapply Forall_impl; [exact Hts|]. intros t Ht. simpl in Ht.
      destruct (findActiveIncident w1 (server_id server) (issue_type issue) t)
        as [e|] eqn:Hf; [eexists; reflexivity|].
      exfalso. apply find_none with (x := set_notificationsSent
          (truthy (shouldSend w (issue_severity issue)))
          (doc_row (newIncident (nextObjectId w) server issue t0))) in Hf.
      * unfold matchesActive in Hf. simpl in Hf.
        rewrite Nat.eqb_refl, String.eqb_refl in Hf. simpl in Hf.
        apply Z.leb_gt in Hf. lia.
      * rewrite Hi. apply in_app_iff. right. left. reflexivity.
  - exact Hsepn.
  - intros sid' ty' a. apply separatedList_window. exact Hsepn.
Qed.

End Ledger.

Lemma dedup_window_witness :
  let w1 := handleIssue reliable lobby lobbyOffline 0 exampleWorld in
  let wn := detections reliable lobby lobbyOffline [300000; 1800000] w1 in
  wn = w1
  /\ (length (activeInWindow 7%nat "server_offline" 0 (incidents wn)) <= 1)%nat.
Proof.
  intros w1 wn.
  assert (Hwf : wf_incidents exampleWorld)
    by (split; [apply NoDup_nil; exact I | constructor]).
  assert (Hts : Forall (fun t => 0 <= t <= 0 + dedupWindow) [300000; 1800000])
    by (repeat constructor; unfold dedupWindow; lia).
  destruct (dedup_window reliable lobby lobbyOffline 0 [300000; 1800000]
              exampleWorld Hwf I Hts) as (_ & _ & Hnew & _ & Hwin).
  split; [apply Hnew; reflexivity | apply Hwin].
Defined.

(** ** The dispatcher and the gate on severity *)

Section Dispatcher.

Variable provider : Channel -> jsval -> Template -> option string.

Lemma findIncidentById_upsert r l :
  List.find (fun i => Nat.eqb (incident_id i) (incident_id r)) (upsertIncident r l)
  = Some r.
Proof.
  induction l as [|x l IH]; simpl.
  - rewrite Nat.eqb_refl. reflexivity.
  - destruct (Nat.eqb (incident_id x) (incident_id r)) eqn:E; simpl.
    + rewrite Nat.eqb_refl. reflexivity.
    + rewrite E. exact IH.
Qed.

(** C3: when the severity of the incident is enabled, every (channel,
    recipient) pair of the fan-out is attempted, in order and whatever the
    other attempts came to (the pairs do not depend on the providers);
    each attempt leaves exactly one notification record, [sent] or
    [failed] with the error text; and afterwards the incident carries
    [notificationsSent = true], in memory and in its persisted row. *)
Theorem fan_out_isolation (incident : IncidentDoc) (server : Server) (now : Z)
    (w : World) :
  truthy (shouldSend w (severity (doc_row incident))) = true ->
  let r := sendIncidentNotifications provider incident server now w in
  outbox r.2 = outbox w ++ map (attempt provider IncidentTemplate w) (targets w)
  /\ notifications r.2
     = notifications w ++ map (recordOf provider incident now w) (targets w)
  /\ Forall2
       (fun d n =>
          notification_type n = channel_name (channel d)
          /\ recipient n = delivery_to d
          /\ notification_error n = outcome d
          /\ notification_status n
             = (if outcome d is None then "sent" else "failed"))
       (map (attempt provider IncidentTemplate w) (targets w))
       (map (recordOf provider incident now w) (targets w))
  /\ notificationsSent (doc_row r.1) = true
  /\ findIncidentById r.2 (incident_id (doc_row incident)) = Some (doc_row r.1).
Proof.
  intros Hs r. unfold r. rewrite sendIncidentNotifications_eq by exact Hs.
  simpl. split; [reflexivity|]. split; [reflexivity|].
  split; [|split; [reflexivity|]].
  - induction (targets w) as [|cr l IH]; simpl; constructor; [|exact IH].
    repeat split; reflexivity.
  - unfold findIncidentById, saveIncident. simpl.
    apply (findIncidentById_upsert
             (set_notificationsSent true (doc_row incident))).
Qed.

(** C4: an issue whose severity is gated off still becomes a persisted,
    active incident when no incident of the window absorbs it, but the
    dispatcher returns at once: no send is attempted, no notification
    record is written, and [notificationsSent] stays [false]. *)
Theorem severity_gating (server : Server) (issue : Issue) (now : Z) (w : World) :
  wf_incidents w ->
  findActiveIncident w (server_id server) (issue_type issue) now = None ->
  truthy (shouldSend w (issue_severity issue)) = false ->
  let incident := newIncident (nextObjectId w) server issue now in
  let w' := handleIssue provider server issue now w in
  incidents w' = incidents w ++ [doc_row incident]
  /\ status (doc_row incident) = "active"
  /\ notificationsSent (doc_row incident) = false
  /\ notifications w' = notifications w
  /\ outbox w' = outbox w
  /\ (forall w1, settings w1 = settings w ->
        sendIncidentNotifications provider incident server now w1
        = (incident, w1)).
Proof.
  intros Hwf Hnone Hs incident w'.
  destruct (handleIssue_new provider server issue now w Hwf Hnone)
    as (Hi & _ & Hn & Ho & _).
  fold w' in Hi, Hn, Ho. rewrite Hs in Hi, Hn, Ho.
  rewrite app_nil_r in Hn, Ho.
  repeat split; try assumption.
  intros w1 Hw1. apply sendIncidentNotifications_gated.
  unfold shouldSend, getSetting in *. simpl. rewrite Hw1. exact Hs.
Qed.

End Dispatcher.

Lemma fan_out_isolation_witness :
  let incident := newIncident 0%nat lobby lobbyOffline 0 in
  let r := sendIncidentNotifications mailDown incident lobby 0 exampleWorld in
  map outcome (outbox r.2) = [Some "SMTP timeout"; None; None]
  /\ map notification_status (notifications r.2) = ["failed"; "sent"; "sent"]
  /\ notificationsSent (doc_row r.1) = true.
Proof.
  intros incident r.
  destruct (fan_out_isolation mailDown incident lobby 0 exampleWorld eq_refl)
    as (Ho & Hn & _ & Hf & _).
  fold r in Ho, Hn, Hf. rewrite Ho, Hn.
  split; [reflexivity|]. split; [reflexivity | exact Hf].
Defined.

Lemma severity_gating_witness :
  let issue := issue_version lobby (mkVersion (JStr "1.19") (Some 500)) in
  let w' := handleIssue reliable lobby issue 0 exampleWorld in
  map status (incidents w') = ["active"]
  /\ notifications w' = [] /\ outbox w' = [].
Proof.
  intros issue w'.
  assert (Hwf : wf_incidents exampleWorld)
    by (split; [apply NoDup_nil; exact I | constructor]).
  destruct (severity_gating reliable lobby issue 0 exampleWorld Hwf eq_refl eq_refl)
    as (Hi & _ & _ & Hn & Ho & _).
  fold w' in Hi, Hn, Ho. rewrite Hi, Hn, Ho.
  split; [reflexivity|]. split; reflexivity.
Defined.

(** ** Re-detection inside the window *)

Section Refresh.

Variable provider : Channel -> jsval -> Template -> option string.

Lemma findIncidentById_In l e :
  NoDup (map incident_id l) -> In e l ->
  List.find (fun i => Nat.eqb (incident_id i) (incident_id e)) l = Some e.
Proof.
  induction l as [|x l IH]; simpl; intros Hnd Hin; [contradiction|].
  apply NoDup_cons in Hnd as [Hx Hnd].
  destruct (Nat.eqb_spec (incident_id x) (incident_id e)) as [E|E].
  - destruct Hin as [->|Hin]; [reflexivity|].
    exfalso. apply Hx. rewrite E. apply list_elem_of_In, in_map. exact Hin.
  - destruct Hin as [->|Hin]; [contradiction|]. apply IH; assumption.
Qed.

(** C6, what the code does: a detection that finds an active incident in
    the window assigns [updatedAt] on the document and saves it, but
    [updatedAt] is no path of [incidentSchema], so the assignment makes a
    property of the object in memory and nothing reaches the collection:
    the rows, that of the incident included, are what they were. *)
Theorem refresh_not_persisted (server : Server) (issue : Issue) (now : Z)
    (w : World) (e : Incident) :
  wf_incidents w ->
  findActiveIncident w (server_id server) (issue_type issue) now = Some e ->
  let w' := handleIssue provider server issue now w in
  ~ In "updatedAt" incidentSchema
  /\ assign "updatedAt" (JNum now) (mkIncidentDoc e [])
     = mkIncidentDoc e [("updatedAt", JNum now)]
  /\ incidents w' = incidents w
  /\ findIncidentById w' (incident_id e) = Some e.
Proof.
  intros Hwf He w'. unfold w'.
  rewrite (handleIssue_found provider _ _ _ _ _ Hwf He).
  split; [|split; [reflexivity|split; [reflexivity|]]].
  - unfold incidentSchema. simpl. intuition discriminate.
  - apply findActiveIncident_Some in He as [Hin _]. destruct Hwf as [Hnd _].
    apply findIncidentById_In; assumption.
Qed.

End Refresh.

Lemma refresh_not_persisted_witness :
  let w1 := handleIssue reliable lobby lobbyOffline 0 exampleWorld in
  let w2 := handleIssue reliable lobby lobbyOffline 300000 w1 in
  incidents w2 = incidents w1.
Proof.
  intros w1 w2.
  assert (Hwf : wf_incidents w1).
  { split; [vm_compute; repeat constructor; apply not_elem_of_nil
           | vm_compute; repeat constructor]. }
  eapply (refresh_not_persisted reliable lobby lobbyOffline 300000 w1 _ Hwf).
  vm_compute. reflexivity.
Defined.

(** Two probes five minutes apart that both time out: one incident row
    after both, the same row as after the first. *)
Example two_unhealthy_probes :
  let r1 := checkServer reliable lobby (ProbeError "timeout" 800) 0 exampleWorld in
  let r2 := checkServer reliable r1.1 (ProbeError "timeout" 800) 300000 r1.2 in
  incidents r2.2 = incidents r1.2
  /\ map createdAt (incidents r2.2) = [0]
  /\ length (notifications r2.2) = 3%nat.
Proof. vm_compute. repeat split. Qed.

(** ** What a check leaves alone *)

Section Frame.

Variable provider : Channel -> jsval -> Template -> option string.

Lemma timersExtend_refl w : timersExtend w w.
Proof. split; [lia|]. split; [auto|]. split; auto. Qed.

Lemma timersExtend_trans w1 w2 w3 :
  timersExtend w1 w2 -> timersExtend w2 w3 -> timersExtend w1 w3.
Proof.
  intros (Hn1 & A1 & B1 & C1) (Hn2 & A2 & B2 & C2).
  split; [lia|]. split; [auto|]. split.
  - intros h sid Hh Hp. apply B2; [lia | apply B1; assumption].
  - intros h Hs. apply C2 in Hs as [Hs|Hs]; [|right; lia].
    apply C1 in Hs as [Hs|Hs]; [left; exact Hs | right; lia].
Qed.

Lemma framed_same w w' :
  settings w' = settings w -> clients w' = clients w ->
  monitoring w' = monitoring w -> nextTimer w' = nextTimer w ->
  timers w' = timers w -> framed w w'.
Proof.
  intros B C D E F. unfold framed, timersExtend. rewrite B, C, D, E, F.
  split; [reflexivity|]. split; [reflexivity|]. split; [reflexivity|].
  split; [lia|]. split; [auto|]. split; auto.
Qed.

Lemma framed_refl w : framed w w.
Proof. apply framed_same; reflexivity. Qed.

Lemma framed_trans w1 w2 w3 : framed w1 w2 -> framed w2 w3 -> framed w1 w3.
Proof.
  intros (B1 & C1 & D1 & E1) (B2 & C2 & D2 & E2).
  split; [congruence|]. split; [congruence|].
  split; [congruence|]. eapply timersExtend_trans; eassumption.
Qed.

Lemma setupRecoveryCheck_framed server incident w :
  framed w (setupRecoveryCheck server incident w).
Proof.
  split; [reflexivity|]. split; [reflexivity|].
  split; [reflexivity|]. split; [simpl; lia|]. simpl. split; [|split].
  - intros h sid. destruct (decide (nextTimer w = h)) as [<-|Hne].
    + rewrite lookup_insert_eq. discriminate.
    + rewrite lookup_insert_ne by exact Hne. auto.
  - intros h sid Hlt Hp. rewrite lookup_insert_ne by lia. exact Hp.
  - intros h. destruct (decide (nextTimer w = h)) as [<-|Hne].
    + right. lia.
    + rewrite lookup_insert_ne by exact Hne. auto.
Qed.

Lemma handleIssue_framed server issue now w :
  framed w (handleIssue provider server issue now w).
Proof.
  unfold handleIssue.
  destruct (findActiveIncident w (server_id server) (issue_type issue) now).
  - apply framed_same; reflexivity.
  - set (incident := newIncident (nextObjectId w) server issue now).
    set (w1 := saveIncident incident _).
    assert (H1 : framed w w1) by (apply framed_same; reflexivity).
    destruct (truthy (shouldSend w1 (severity (doc_row incident)))) eqn:Hs.
    + rewrite sendIncidentNotifications_eq by exact Hs.
      set (w2 := saveIncident _ _).
      assert (H2 : framed w w2) by (apply framed_same; reflexivity).
      destruct (String.eqb (issue_type issue) "server_offline"); [|exact H2].
      eapply framed_trans; [exact H2 | apply setupRecoveryCheck_framed].
    + rewrite sendIncidentNotifications_gated by exact Hs.
      destruct (String.eqb (issue_type issue) "server_offline"); [|exact H1].
      eapply framed_trans; [exact H1 | apply setupRecoveryCheck_framed].
Qed.

Lemma handleIssue_servers server issue now w :
  servers (handleIssue provider server issue now w) = servers w.
Proof.
  unfold handleIssue.
  destruct (findActiveIncident w (server_id server) (issue_type issue) now);
    [reflexivity|].
  set (incident := newIncident (nextObjectId w) server issue now).
  set (w1 := saveIncident incident _).
  destruct (truthy (shouldSend w1 (severity (doc_row incident)))) eqn:Hs.
  - rewrite sendIncidentNotifications_eq by exact Hs.
    destruct (String.eqb (issue_type issue) "server_offline"); reflexivity.
  - rewrite sendIncidentNotifications_gated by exact Hs.
    destruct (String.eqb (issue_type issue) "server_offline"); reflexivity.
Qed.

Lemma checkForIssues_servers server st now w :
  servers (checkForIssues provider server st now w) = servers w.
Proof.
  unfold checkForIssues. generalize (detectIssues server st) as l. intros l.
  revert w. induction l as [|i l IH]; intros w; simpl; [reflexivity|].
  rewrite IH. apply handleIssue_servers.
Qed.

Lemma checkForIssues_framed server st now w :
  framed w (checkForIssues provider server st now w).
Proof.
  unfold checkForIssues. generalize (detectIssues server st) as l. intros l.
  revert w. induction l as [|i l IH]; intros w; simpl; [apply framed_refl|].
  eapply framed_trans; [apply handleIssue_framed | apply IH].
Qed.

Lemma findServerById_upsert s l :
  List.find (fun x => Nat.eqb (server_id x) (server_id s)) (upsertServer s l)
  = Some s.
Proof.
  induction l as [|x l IH]; simpl.
  - rewrite Nat.eqb_refl. reflexivity.
  - destruct (Nat.eqb (server_id x) (server_id s)) eqn:E; simpl.
    + rewrite Nat.eqb_refl. reflexivity.
    + rewrite E. exact IH.
Qed.

Lemma checkFailed_framed server message elapsed now w :
  framed w (checkFailed provider server message elapsed now w).2.
Proof.
  unfold checkFailed. simpl.
  eapply framed_trans; [|apply checkForIssues_framed].
  apply framed_same; reflexivity.
Qed.

Lemma checkServer_framed server probe now w :
  framed w (checkServer provider server probe now w).2.
Proof.
  unfold checkServer. destruct probe as [[d|] elapsed|message elapsed].
  - simpl. eapply framed_trans; [|apply checkForIssues_framed].
    apply framed_same; reflexivity.
  - apply checkFailed_framed.
  - apply checkFailed_framed.
Qed.


End Frame.

(** ** The recovery notification *)

Section Recovery.

Variable provider : Channel -> jsval -> Template -> option string.

Lemma untilFailure_clients t w w' l :
  clients w' = clients w ->
  untilFailure provider t w' l = untilFailure provider t w l.
Proof.
  intros Hc. induction l as [|[c to] l IH]; simpl; [reflexivity|].
  unfold send_result. rewrite Hc, IH. reflexivity.
Qed.


Lemma recoveryLoop_eq chats : forall w,
  recoveryLoop provider chats w
  = attempted provider RecoveryTemplate
      (untilFailure provider RecoveryTemplate w
         (map (fun s => (Telegram, JStr (chatId_of s))) chats)) w.
Proof.
  induction chats as [|s chats IH]; intros w; simpl.
  - rewrite attempted_nil. reflexivity.
  - rewrite sendTelegramMessage_eq.
    destruct (send_result provider Telegram (JStr (chatId_of s)) RecoveryTemplate w)
      eqn:E; [reflexivity|].
    rewrite IH, (untilFailure_clients _ w) by reflexivity.
    apply (attempted_app provider RecoveryTemplate [_]).
Qed.

(** The recovery notification in closed form: the pairs of the fan-out are
    attempted in order up to the first send that throws; nothing is
    consulted but the channel settings, and nothing is written but the
    sends. *)
Lemma getSetting_attempted t l w :
  getSetting (attempted provider t l w) = getSetting w.
Proof. reflexivity. Qed.

Lemma clients_attempted t l w : clients (attempted provider t l w) = clients w.
Proof. reflexivity. Qed.

Lemma subscribedChats_attempted t l w :
  subscribedChats (attempted provider t l w) = subscribedChats w.
Proof. reflexivity. Qed.

Lemma send_result_attempted c to t t' l w :
  send_result provider c to t (attempted provider t' l w)
  = send_result provider c to t w.
Proof. reflexivity. Qed.

(** The Telegram part of the recovery notification. *)
Lemma recoveryTelegram_eq l w :
  (if truthy (getSetting w "telegram_enabled" (JBool true))
      && telegramReady (clients w)
   then recoveryLoop provider (subscribedChats w)
          (attempted provider RecoveryTemplate l w)
   else attempted provider RecoveryTemplate l w)
  = attempted provider RecoveryTemplate
      (l ++ untilFailure provider RecoveryTemplate w (telegramTargets w)) w.
Proof.
  unfold telegramTargets.
  destruct (truthy (getSetting w "telegram_enabled" (JBool true))
            && telegramReady (clients w)).
  - rewrite recoveryLoop_eq, (untilFailure_clients _ w) by reflexivity.
    apply attempted_app.
  - simpl. rewrite app_nil_r. reflexivity.
Qed.

(** The recovery notification in closed form: the pairs of the fan-out are
    attempted in order up to the first send that throws; nothing is
    consulted but the channel settings, and nothing is written but the
    sends. *)
Lemma sendRecoveryNotification_eq server incident now w :
  sendRecoveryNotification provider server incident now w
  = attempted provider RecoveryTemplate
      (untilFailure provider RecoveryTemplate w (targets w)) w.
Proof.
  unfold sendRecoveryNotification, targets, emailTargets, whatsappTargets.
  rewrite !truthy_js_and.
  destruct (truthy (getSetting w "email_enabled" (JBool false))
            && truthy (getSetting w "admin_email" JNull)).
  - rewrite sendEmail_eq. cbn [app untilFailure fst snd].
    destruct (send_result provider Email (getSetting w "admin_email" JNull)
                RecoveryTemplate w); [reflexivity|].
    rewrite clients_attempted.
    destruct (truthy (getSetting w "whatsapp_enabled" (JBool false))
              && truthy (getSetting w "admin_phone" JNull)
              && whatsappReady (clients w)).
    + rewrite sendWhatsAppMessage_eq, send_result_attempted.
      cbn [app untilFailure fst snd].
      destruct (send_result provider WhatsApp (getSetting w "admin_phone" JNull)
                  RecoveryTemplate w).
      * apply (attempted_app provider RecoveryTemplate [_] [_]).
      * rewrite (attempted_app provider RecoveryTemplate [_] [_]).
        cbv beta iota.
        rewrite ?getSetting_attempted, ?clients_attempted,
          ?subscribedChats_attempted.
        apply (recoveryTelegram_eq [_; _]).
    + cbv beta iota.
      rewrite ?getSetting_attempted, ?clients_attempted,
        ?subscribedChats_attempted.
      apply (recoveryTelegram_eq [_]).
  - cbn [app].
    destruct (truthy (getSetting w "whatsapp_enabled" (JBool false))
              && truthy (getSetting w "admin_phone" JNull)
              && whatsappReady (clients w)).
    + rewrite sendWhatsAppMessage_eq. cbn [app untilFailure fst snd].
      destruct (send_result provider WhatsApp (getSetting w "admin_phone" JNull)
                  RecoveryTemplate w); [reflexivity|].
      cbv beta iota.
      rewrite ?getSetting_attempted, ?clients_attempted,
        ?subscribedChats_attempted.
      apply (recoveryTelegram_eq [_]).
    + cbn [app]. unfold telegramTargets.
      destruct (truthy (getSetting w "telegram_enabled" (JBool true))
                && telegramReady (clients w)).
      * apply recoveryLoop_eq.
      * simpl. rewrite attempted_nil. reflexivity.
Qed.


End Recovery.


(** ** The recovery watcher *)

Section Watcher.

Variable provider : Channel -> jsval -> Template -> option string.

Lemma recoveryCheck_offline h server incident now w :
  targetOnline w (server_id server) = false ->
  recoveryCheck provider h server incident now w = w.
Proof.
  unfold targetOnline, recoveryCheck.
  destruct (findServerById w (server_id server)) as [cs|]; [|reflexivity].
  destruct (lastStatus cs) as [st|]; [|reflexivity].
  intros ->. reflexivity.
Qed.

Lemma recoveryCheck_online h server incident now w :
  targetOnline w (server_id server) = true ->
  let incident' :=
    on_row (set_resolvedAt (Some now)) (on_row (set_status "resolved") incident) in
  let w1 :=
    saveIncident incident'
      (set_incidentCheckers
         (delete (toString (incident_id (doc_row incident))) (incidentCheckers w))
         (clearInterval h w)) in
  recoveryCheck provider h server incident now w
  = attempted provider RecoveryTemplate
      (untilFailure provider RecoveryTemplate w (targets w)) w1.
Proof.
  unfold targetOnline, recoveryCheck.
  destruct (findServerById w (server_id server)) as [cs|]; [|discriminate].
  destruct (lastStatus cs) as [st|]; [|discriminate].
  intros ->. cbv zeta. rewrite sendRecoveryNotification_eq.
  apply (f_equal (fun l => attempted provider RecoveryTemplate l _)).
  apply untilFailure_clients. reflexivity.
Qed.

Lemma resolveIncident_timers id t w :
  timers (resolveIncident id t w) = timers w
  /\ incidentCheckers (resolveIncident id t w) = incidentCheckers w.
Proof.
  unfold resolveIncident. destruct (findIncidentById w id); split; reflexivity.
Qed.

(** C2, amended: the watcher of an incident does not consult the
    incident's status, and resolving the incident by hand does not disarm
    it.  While the persisted status of the target is not online a firing
    changes nothing; on the firing that finds the target online the
    watcher clears its own timer and its registry entry, writes status
    [resolved] with [resolvedAt] at that time whatever the row held, and
    sends the recovery notification; having cleared itself it does not
    fire again. *)
Theorem watcher_ignores_status (h : nat) (server : Server)
    (incident : IncidentDoc) (now : Z) (w : World) :
  timers w !! h = Some (RecoveryJob server incident) ->
  let id := incident_id (doc_row incident) in
  (forall id' t,
      timers (resolveIncident id' t w) !! h = Some (RecoveryJob server incident)
      /\ incidentCheckers (resolveIncident id' t w) = incidentCheckers w)
  /\ (targetOnline w (server_id server) = false ->
      fireRecovery provider h now w = w)
  /\ (targetOnline w (server_id server) = true ->
      let w' := fireRecovery provider h now w in
      timers w' !! h = None
      /\ incidentCheckers w' !! toString id = None
      /\ findIncidentById w' id = Some (resolvedRow incident now)
      /\ notifications w' = notifications w
      /\ outbox w'
         = outbox w
           ++ map (attempt provider RecoveryTemplate w)
                (untilFailure provider RecoveryTemplate w (targets w))
      /\ forall t, fireRecovery provider h t w' = w').
Proof.
  intros Hh id. split; [|split].
  - intros id' t. destruct (resolveIncident_timers id' t w) as [-> ->]. auto.
  - intros Hoff. unfold fireRecovery. rewrite Hh.
    apply recoveryCheck_offline, Hoff.
  - intros Hon w'. unfold w', fireRecovery. rewrite Hh.
    rewrite recoveryCheck_online by exact Hon.
    assert (Hgone :
      timers (attempted provider RecoveryTemplate
                (untilFailure provider RecoveryTemplate w (targets w))
                (saveIncident
                   (on_row (set_resolvedAt (Some now))
                      (on_row (set_status "resolved") incident))
                   (set_incidentCheckers
                      (delete (toString (incident_id (doc_row incident)))
                         (incidentCheckers w)) (clearInterval h w)))) !! h = None)
      by (simpl; apply lookup_delete_eq).
    split; [exact Hgone|]. split; [simpl; apply lookup_delete_eq|].
    split; [|split; [reflexivity|split; [reflexivity|]]].
    + unfold findIncidentById, saveIncident. simpl.
      apply (findIncidentById_upsert (resolvedRow incident now)).
    + intros t. rewrite Hgone. reflexivity.
Qed.

End Watcher.

Lemma watcher_ignores_status_witness :
  timers backOnline.2 !! 0%nat = Some (RecoveryJob watched.1 watched.2)
  /\ timers watcherFired !! 0%nat = None
  /\ findIncidentById watcherFired 0%nat = Some (resolvedRow watched.2 180000).
Proof.
  assert (Hh : timers backOnline.2 !! 0%nat = Some (RecoveryJob watched.1 watched.2))
    by (vm_compute; reflexivity).
  destruct (watcher_ignores_status mailDown 0%nat watched.1 watched.2 180000
              backOnline.2 Hh) as (_ & _ & Hon).
  destruct (Hon ltac:(vm_compute; reflexivity)) as (H1 & _ & H3 & _).
  split; [exact Hh|]. split; [exact H1 | exact H3].
Defined.

(** C2, counterexample: incident 0 is resolved by hand one minute into the
    outage; its watcher stays armed; when it later finds the server online
    it writes the resolution again, moving [resolvedAt] from the first to
    the third minute, and sends a recovery notification. *)
Lemma watcher_resolves_again :
  map status (incidents resolvedByHand) = ["resolved"]
  /\ map resolvedAt (incidents resolvedByHand) = [Some 60000]
  /\ is_Some (timers resolvedByHand !! 0%nat)
  /\ is_Some (timers backOnline.2 !! 0%nat)
  /\ map resolvedAt (incidents watcherFired) = [Some 180000]
  /\ outbox backOnline.2 = outbox resolvedByHand
  /\ map template (drop (length (outbox backOnline.2)) (outbox watcherFired))
     = [RecoveryTemplate].
Proof.
  vm_compute. repeat split; eexists; reflexivity.
Qed.

(** ** The scheduler registry *)

Section Scheduler.

Variable provider : Channel -> jsval -> Template -> option string.

Lemma toString_inj a b : toString a = toString b -> a = b.
Proof. unfold toString. apply pretty_nat_inj. Qed.

Lemma registryAgrees_empty s c : registryAgrees (emptyWorld s c).
Proof.
  split; [|split]; simpl.
  - intros h sid H. rewrite lookup_empty in H. discriminate.
  - intros k h H. rewrite lookup_empty in H. discriminate.
  - intros h [x H]. rewrite lookup_empty in H. discriminate.
Qed.

Lemma registryAgrees_framed w w' :
  registryAgrees w -> framed w w' -> registryAgrees w'.
Proof.
  intros (A & B & C) (_ & _ & Hm & Hn & FA & FB & FC). split; [|split].
  - intros h sid H. rewrite Hm. apply A, FA, H.
  - intros k h H. rewrite Hm in H. destruct (B k h H) as (sid & -> & Hp).
    exists sid. split; [reflexivity|]. apply FB; [|exact Hp].
    apply C. rewrite Hp. eauto.
  - intros h H. apply FC in H as [H|H]; [apply C in H|]; lia.
Qed.

Lemma startMonitoring_armTimer server probe now w :
  startMonitoring provider server probe now w
  = checkServer provider server probe now (armTimer server w).
Proof. reflexivity. Qed.

(** Arming: the old handle is cleared, the new one is live and registered,
    and the registry still agrees with the timers. *)
Lemma armTimer_agrees server w :
  registryAgrees w ->
  let k := toString (server_id server) in
  let wa := armTimer server w in
  registryAgrees wa
  /\ (forall h, monitoring w !! k = Some h ->
                timers w !! h = Some (PollJob (server_id server))
                /\ timers wa !! h = None)
  /\ monitoring wa !! k = Some (nextTimer w)
  /\ timers wa !! nextTimer w = Some (PollJob (server_id server))
  /\ nextTimer wa = S (nextTimer w).
Proof.
  intros (A & B & C) k wa.
  assert (Hold : forall h, monitoring w !! k = Some h ->
                           timers w !! h = Some (PollJob (server_id server))
                           /\ (h < nextTimer w)%nat).
  { intros h Hh. destruct (B k h Hh) as (sid & Hk & Hp).
    apply toString_inj in Hk. subst sid. split; [exact Hp|].
    apply C. rewrite Hp. eauto. }
  assert (Ht : timers wa
               = <[nextTimer w := PollJob (server_id server)]>
                   (match monitoring w !! k with
                    | Some h => delete h (timers w)
                    | None => timers w
                    end)).
  { unfold wa, armTimer. fold k. destruct (monitoring w !! k); reflexivity. }
  assert (Hm : monitoring wa = <[k := nextTimer w]> (monitoring w)).
  { unfold wa, armTimer. fold k. destruct (monitoring w !! k); reflexivity. }
  assert (Hn : nextTimer wa = S (nextTimer w)).
  { unfold wa, armTimer. fold k. destruct (monitoring w !! k); reflexivity. }
  assert (Hsub : forall h x,
             h <> nextTimer w -> timers wa !! h = Some x -> timers w !! h = Some x
             /\ monitoring w !! k <> Some h).
  { intros h x Hne. rewrite Ht, lookup_insert_ne by congruence.
    destruct (monitoring w !! k) as [h0|] eqn:Hk.
    - destruct (decide (h0 = h)) as [->|Hd].
      + rewrite lookup_delete_eq. discriminate.
      + rewrite lookup_delete_ne by exact Hd. intros Hx. split; [exact Hx|].
        congruence.
    - intros Hx. split; [exact Hx | discriminate]. }
  split; [split; [|split]|split; [|split; [|split]]].
  - intros h sid Hp. rewrite Hm.
    destruct (decide (h = nextTimer w)) as [->|Hne].
    + rewrite Ht, lookup_insert_eq in Hp. injection Hp as <-.
      apply lookup_insert_eq.
    + destruct (Hsub h _ Hne Hp) as [Hw Hk].
      destruct (decide (k = toString sid)) as [E|E].
      * exfalso. apply Hk. rewrite E. apply A, Hw.
      * rewrite lookup_insert_ne by exact E. apply A, Hw.
  - intros k' h. rewrite Hm.
    destruct (decide (k = k')) as [<-|E].
    + rewrite lookup_insert_eq. intros [= <-]. exists (server_id server).
      split; [reflexivity|]. rewrite Ht. apply lookup_insert_eq.
    + rewrite lookup_insert_ne by exact E. intros Hk'.
      destruct (B k' h Hk') as (sid & -> & Hp). exists sid.
      split; [reflexivity|].
      assert (h < nextTimer w)%nat by (apply C; rewrite Hp; eauto).
      rewrite Ht, lookup_insert_ne by lia.
      destruct (monitoring w !! k) as [h0|] eqn:Hk; [|exact Hp].
      destruct (decide (h0 = h)) as [->|Hd]; [|rewrite lookup_delete_ne; auto].
      exfalso. destruct (Hold h eq_refl) as [Hp' _]. rewrite Hp in Hp'.
      injection Hp' as ->. apply E. reflexivity.
  - intros h [x Hx]. rewrite Hn.
    destruct (decide (h = nextTimer w)) as [->|Hne]; [lia|].
    destruct (Hsub h x Hne Hx) as [Hw _].
    assert (h < nextTimer w)%nat by (apply C; rewrite Hw; eauto). lia.
  - intros h Hh. destruct (Hold h Hh) as [Hp Hlt]. split; [exact Hp|].
    rewrite Ht, lookup_insert_ne by lia. rewrite Hh. apply lookup_delete_eq.
  - rewrite Hm. apply lookup_insert_eq.
  - rewrite Ht. apply lookup_insert_eq.
  - exact Hn.
Qed.

Lemma stopMonitoring_agrees key w :
  registryAgrees w -> registryAgrees (stopMonitoring key w).
Proof.
  intros (A & B & C). unfold stopMonitoring.
  destruct (monitoring w !! key) as [h0|] eqn:Hk; [|repeat split; assumption].
  destruct (B key h0 Hk) as (sid0 & -> & Hp0).
  split; [|split]; simpl.
  - intros h sid. destruct (decide (h0 = h)) as [->|Hd].
    + rewrite lookup_delete_eq. discriminate.
    + rewrite lookup_delete_ne by exact Hd. intros Hp.
      destruct (decide (toString sid0 = toString sid)) as [E|E].
      * exfalso. apply Hd. apply A in Hp. rewrite <- E, Hk in Hp. congruence.
      * rewrite lookup_delete_ne by exact E. apply A, Hp.
  - intros k h. destruct (decide (toString sid0 = k)) as [<-|E].
    + rewrite lookup_delete_eq. discriminate.
    + rewrite lookup_delete_ne by exact E. intros Hk'.
      destruct (B k h Hk') as (sid & -> & Hp). exists sid.
      split; [reflexivity|]. rewrite lookup_delete_ne; [exact Hp|].
      intros ->. rewrite Hp0 in Hp. injection Hp as ->. apply E. reflexivity.
  - intros h [x Hx]. apply C. exists x.
    destruct (decide (h0 = h)) as [->|Hd].
    + rewrite lookup_delete_eq in Hx. discriminate.
    + rewrite lookup_delete_ne in Hx by exact Hd. exact Hx.
Qed.

Lemma fireRecovery_framed h now w : framed w (fireRecovery provider h now w).
Proof.
  unfold fireRecovery.
  destruct (timers w !! h) as [[sid|s i]|] eqn:Hh; try apply framed_refl.
  destruct (targetOnline w (server_id s)) eqn:Hon.
  - rewrite recoveryCheck_online by exact Hon.
    split; [reflexivity|]. split; [reflexivity|]. split; [reflexivity|].
    split; [simpl; lia|]. simpl. split; [|split].
    + intros h' sid Hp. apply lookup_delete_Some in Hp as [_ Hp]. exact Hp.
    + intros h' sid _ Hp. rewrite lookup_delete_ne; [exact Hp|].
      intros ->. rewrite Hh in Hp. discriminate.
    + intros h' [x Hx]. apply lookup_delete_Some in Hx as [_ Hx]. eauto.
  - rewrite recoveryCheck_offline by exact Hon. apply framed_refl.
Qed.

Lemma resolveIncident_framed id now w : framed w (resolveIncident id now w).
Proof.
  unfold resolveIncident. destruct (findIncidentById w id);
    apply framed_same; reflexivity.
Qed.

Lemma engineCall_agrees c w :
  registryAgrees w -> registryAgrees (engineCall provider w c).
Proof.
  intros H. destruct c as [server probe now|key|server probe now|h now|id now];
    simpl.
  - rewrite startMonitoring_armTimer.
    eapply registryAgrees_framed; [|apply checkServer_framed].
    apply armTimer_agrees, H.
  - apply stopMonitoring_agrees, H.
  - eapply registryAgrees_framed; [exact H | apply checkServer_framed].
  - eapply registryAgrees_framed; [exact H | apply fireRecovery_framed].
  - eapply registryAgrees_framed; [exact H | apply resolveIncident_framed].
Qed.

(** Whatever happened to the engine since it started, the registry agrees
    with the live poll timers. *)
Lemma engineCalls_agree cs : forall w,
  registryAgrees w -> registryAgrees (engineCalls provider cs w).
Proof.
  induction cs as [|c cs IH]; intros w H; simpl; [exact H|].
  apply IH, engineCall_agrees, H.
Qed.

(** C8: in every state the engine reaches from its start, a server has at
    most one live poll timer, the one registered under its id; calling
    [startMonitoring] for a server that has one clears it before the new
    timer is armed, so that afterwards exactly one poll timer of the
    server is live; and [stopMonitoring] for a key with no registered
    timer changes nothing. *)
Theorem one_timer_per_server (cs : list EngineCall) (s : list Setting)
    (c : Clients) (server : Server) (probe : ProbeOutcome) (now : Z) :
  let w := engineCalls provider cs (emptyWorld s c) in
  let k := toString (server_id server) in
  let w' := (startMonitoring provider server probe now w).2 in
  (forall h1 h2 sid,
      timers w !! h1 = Some (PollJob sid) -> timers w !! h2 = Some (PollJob sid) ->
      h1 = h2 /\ monitoring w !! toString sid = Some h1)
  /\ (forall h,
         monitoring w !! k = Some h ->
         timers w !! h = Some (PollJob (server_id server))
         /\ timers w' !! h = None)
  /\ (exists h',
         monitoring w' !! k = Some h'
         /\ timers w' !! h' = Some (PollJob (server_id server))
         /\ forall h, timers w' !! h = Some (PollJob (server_id server)) -> h = h')
  /\ (forall key, monitoring w !! key = None -> stopMonitoring key w = w).
Proof.
  intros w k w'.
  assert (Hw : registryAgrees w)
    by (apply engineCalls_agree, registryAgrees_empty).
  destruct (armTimer_agrees server w Hw) as (Ha & Hold & Hk & Hp & Hn).
  assert (Hfr : framed (armTimer server w) w')
    by (unfold w'; rewrite startMonitoring_armTimer; apply checkServer_framed).
  assert (Hw' : registryAgrees w') by (eapply registryAgrees_framed; eassumption).
  destruct Hfr as (_ & _ & Hm & Hle & FA & FB & FC).
  split; [|split; [|split]].
  - intros h1 h2 sid H1 H2. destruct Hw as (A & _).
    apply A in H1 as H1'. apply A in H2. split; [congruence | exact H1'].
  - intros h Hh. destruct (Hold h Hh) as [Hlive Hgone]. split; [exact Hlive|].
    destruct (timers w' !! h) as [x|] eqn:Hx; [|reflexivity]. exfalso.
    assert (Hs : is_Some (timers w' !! h)) by (rewrite Hx; eauto).
    apply FC in Hs as [[y Hy]|Hr]; [rewrite Hgone in Hy; discriminate|].
    destruct Hw as (_ & _ & C).
    assert (h < nextTimer w)%nat by (apply C; rewrite Hlive; eauto). lia.
  - exists (nextTimer w). split; [rewrite Hm; exact Hk|]. split.
    + apply FB; [lia | exact Hp].
    + intros h Hh. destruct Hw' as (A' & _). apply A' in Hh.
      rewrite Hm in Hh. unfold k in *. congruence.
  - intros key Hkey. unfold stopMonitoring. rewrite Hkey. reflexivity.
Qed.

End Scheduler.

(** ** The dedup invariant in every reachable state *)

Section Reachable.

Variable provider : Channel -> jsval -> Template -> option string.

Lemma upsertIncident_ids r l :
  map incident_id (upsertIncident r l)
  = if bool_decide (incident_id r ∈ map incident_id l)
    then map incident_id l else map incident_id l ++ [incident_id r].
Proof.
  induction l as [|x l IH]; cbn [upsertIncident map].
  - rewrite bool_decide_eq_false_2 by apply not_elem_of_nil. reflexivity.
  - destruct (Nat.eqb_spec (incident_id x) (incident_id r)) as [E|E];
      cbn [map].
    + rewrite bool_decide_eq_true_2 by (rewrite E; left). congruence.
    + rewrite IH.
      destruct (decide (incident_id r ∈ map incident_id l)) as [B|B].
      * rewrite !bool_decide_eq_true_2; [reflexivity | right; exact B | exact B].
      * rewrite !bool_decide_eq_false_2; [reflexivity | | exact B].
        intros H. apply elem_of_cons in H as [H|H]; [congruence | auto].
Qed.

Lemma upsertIncident_Forall (P : Incident -> Prop) r l :
  P r -> Forall P l -> Forall P (upsertIncident r l).
Proof.
  intros Hr. induction 1 as [|x l Hx Hl IH]; simpl.
  - constructor; [exact Hr | constructor].
  - destruct (Nat.eqb (incident_id x) (incident_id r)); constructor; assumption.
Qed.

(** Writing a row that is not active cannot break the separation. *)
Lemma separatedList_upsert r l :
  status r <> "active" -> separatedList l -> separatedList (upsertIncident r l).
Proof.
  intros Hr. induction l as [|x l IH]; simpl; intros Hs.
  - split; [constructor | exact I].
  - destruct Hs as [Hx Hs].
    destruct (Nat.eqb (incident_id x) (incident_id r)); simpl.
    + split; [|exact Hs]. apply Forall_forall. intros y _ _ _ Ha. contradiction.
    + split; [|apply IH, Hs]. apply upsertIncident_Forall; [|exact Hx].
      intros _ _ _ Ha. contradiction.
Qed.

(** Saving a resolved document keeps the invariant, whether its row is
    there or not. *)
Lemma saveIncident_resolved d w :
  status (doc_row d) <> "active" ->
  (incident_id (doc_row d) < nextObjectId w)%nat ->
  wf_incidents w -> separated w ->
  wf_incidents (saveIncident d w) /\ separated (saveIncident d w).
Proof.
  intros Hst Hid [Hnd Hlt] Hsep. unfold wf_incidents, separated. simpl.
  split; [split|].
  - rewrite upsertIncident_ids. case_bool_decide as Hin; [exact Hnd|].
    apply NoDup_app. split; [exact Hnd|]. split; [|apply NoDup_singleton].
    intros x Hx Hx'. apply list_elem_of_singleton in Hx'. subst x. auto.
  - apply upsertIncident_Forall; assumption.
  - apply separatedList_upsert; assumption.
Qed.

Lemma handleIssue_watchers server issue now w :
  watchersKnown w -> watchersKnown (handleIssue provider server issue now w).
Proof.
  intros Hk. unfold handleIssue.
  destruct (findActiveIncident w (server_id server) (issue_type issue) now);
    [exact Hk|].
  set (incident := newIncident (nextObjectId w) server issue now).
  set (w1 := saveIncident incident _).
  assert (H1 : watchersKnown w1).
  { intros h s i Hh. apply Hk in Hh. simpl. lia. }
  assert (Harm : forall i' w2,
             incident_id (doc_row i') = nextObjectId w ->
             nextObjectId w2 = S (nextObjectId w) -> watchersKnown w2 ->
             watchersKnown (setupRecoveryCheck server i' w2)).
  { intros i' w2 Hi Hn H2 h s i. simpl.
    destruct (decide (nextTimer w2 = h)) as [<-|Hne].
    - rewrite lookup_insert_eq. intros [= <- <-]. rewrite Hn, Hi. lia.
    - rewrite lookup_insert_ne by exact Hne. apply H2. }
  destruct (truthy (shouldSend w1 (severity (doc_row incident)))) eqn:Hs.
  - rewrite sendIncidentNotifications_eq by exact Hs.
    destruct (String.eqb (issue_type issue) "server_offline");
      [apply Harm; [reflexivity | reflexivity | exact H1] | exact H1].
  - rewrite sendIncidentNotifications_gated by exact Hs.
    destruct (String.eqb (issue_type issue) "server_offline");
      [apply Harm; [reflexivity | reflexivity | exact H1] | exact H1].
Qed.

Lemma handleIssue_invariant server issue now w :
  ledgerInvariant w -> ledgerInvariant (handleIssue provider server issue now w).
Proof.
  intros (Hwf & Hsep & Hk).
  destruct (handleIssue_preserves provider server issue now w Hwf Hsep).
  split; [assumption|]. split; [assumption|]. apply handleIssue_watchers, Hk.
Qed.

Lemma checkForIssues_invariant server st now w :
  ledgerInvariant w -> ledgerInvariant (checkForIssues provider server st now w).
Proof.
  unfold checkForIssues. generalize (detectIssues server st) as l. intros l.
  revert w. induction l as [|i l IH]; intros w H; simpl; [exact H|].
  apply IH, handleIssue_invariant, H.
Qed.

Lemma checkServer_invariant server probe now w :
  ledgerInvariant w -> ledgerInvariant (checkServer provider server probe now w).2.
Proof.
  intros H. unfold checkServer, checkFailed.
  destruct probe as [[d|] elapsed|message elapsed]; simpl;
    apply checkForIssues_invariant; exact H.
Qed.

Lemma fireRecovery_invariant h now w :
  ledgerInvariant w -> ledgerInvariant (fireRecovery provider h now w).
Proof.
  intros (Hwf & Hsep & Hk). unfold fireRecovery.
  destruct (timers w !! h) as [[sid|s i]|] eqn:Hh; try exact (conj Hwf (conj Hsep Hk)).
  destruct (targetOnline w (server_id s)) eqn:Hon.
  - rewrite recoveryCheck_online by exact Hon.
    set (d := on_row _ _). set (w0 := set_incidentCheckers _ _).
    destruct (saveIncident_resolved d w0) as [Hwf' Hsep'];
      [discriminate | exact (Hk h s i Hh) | exact Hwf | exact Hsep |].
    split; [exact Hwf'|]. split; [exact Hsep'|].
    intros h' s' i' Hh'. simpl in Hh'.
    apply lookup_delete_Some in Hh' as [_ Hh']. exact (Hk h' s' i' Hh').
  - rewrite recoveryCheck_offline by exact Hon. exact (conj Hwf (conj Hsep Hk)).
Qed.

Lemma resolveIncident_invariant id now w :
  ledgerInvariant w -> ledgerInvariant (resolveIncident id now w).
Proof.
  intros (Hwf & Hsep & Hk). unfold resolveIncident.
  destruct (findIncidentById w id) as [row|] eqn:Hf;
    [|exact (conj Hwf (conj Hsep Hk))].
  set (d := assign _ _ _).
  destruct (saveIncident_resolved d w) as [Hwf' Hsep'];
    [discriminate | | exact Hwf | exact Hsep | exact (conj Hwf' (conj Hsep' Hk))].
  apply find_some in Hf as [Hin _]. destruct Hwf as [_ Hlt].
  rewrite Forall_forall in Hlt. apply (Hlt row), list_elem_of_In, Hin.
Qed.

Lemma armTimer_invariant server w :
  ledgerInvariant w -> ledgerInvariant (armTimer server w).
Proof.
  intros (Hwf & Hsep & Hk). unfold armTimer.
  destruct (monitoring w !! toString (server_id server)) as [h0|];
    (split; [exact Hwf|]; split; [exact Hsep|]); intros h s i; simpl.
  - destruct (decide (nextTimer w = h)) as [<-|Hne].
    + rewrite lookup_insert_eq. discriminate.
    + rewrite lookup_insert_ne by exact Hne. intros Hh.
      apply lookup_delete_Some in Hh as [_ Hh]. exact (Hk h s i Hh).
  - destruct (decide (nextTimer w = h)) as [<-|Hne].
    + rewrite lookup_insert_eq. discriminate.
    + rewrite lookup_insert_ne by exact Hne. apply Hk.
Qed.

Lemma engineCall_invariant c w :
  ledgerInvariant w -> ledgerInvariant (engineCall provider w c).
Proof.
  intros H. destruct c as [server probe now|key|server probe now|h now|id now];
    simpl.
  - rewrite startMonitoring_armTimer.
    apply checkServer_invariant, armTimer_invariant, H.
  - unfold stopMonitoring. destruct (monitoring w !! key) as [h0|]; [|exact H].
    destruct H as (Hwf & Hsep & Hk). split; [exact Hwf|]. split; [exact Hsep|].
    intros h s i Hh. simpl in Hh. apply lookup_delete_Some in Hh as [_ Hh].
    exact (Hk h s i Hh).
  - apply checkServer_invariant, H.
  - apply fireRecovery_invariant, H.
  - apply resolveIncident_invariant, H.
Qed.

(** In every state the engine reaches from its start the rows have
    distinct ids and no two active incidents of a pair lie within 30
    minutes of each other. *)
Lemma engineCalls_invariant cs s c :
  ledgerInvariant (engineCalls provider cs (emptyWorld s c)).
Proof.
  assert (H0 : ledgerInvariant (emptyWorld s c)).
  { split; [split; [apply NoDup_nil; exact I | constructor]|].
    split; [exact I|]. intros h s' i Hh. simpl in Hh.
    rewrite lookup_empty in Hh. discriminate. }
  revert H0. generalize (emptyWorld s c) as w. unfold engineCalls.
  induction cs as [|x cs IH]; intros w H; simpl; [exact H|].
  apply IH, engineCall_invariant, H.
Qed.

End Reachable.

(** * Further properties of the code around the claims *)

(** ** Settings: [setSetting] read back by [getSetting] *)

Section SettingsStore.

Lemma find_upsertSetting_eq k v l :
  List.find (fun s => String.eqb (key s) k) (upsertSetting k v l)
  = Some (mkSetting k v).
Proof.
  induction l as [|s l IH]; simpl.
  - rewrite String.eqb_refl. reflexivity.
  - destruct (String.eqb (key s) k) eqn:E; simpl.
    + rewrite String.eqb_refl. reflexivity.
    + rewrite E. exact IH.
Qed.

Lemma find_upsertSetting_ne k k' v l :
  k' <> k ->
  List.find (fun s => String.eqb (key s) k') (upsertSetting k v l)
  = List.find (fun s => String.eqb (key s) k') l.
Proof.
  intros Hne. induction l as [|s l IH]; simpl.
  - destruct (String.eqb_spec k k'); [congruence | reflexivity].
  - destruct (String.eqb_spec (key s) k) as [E|E]; simpl.
    + destruct (String.eqb_spec k k'); [congruence|].
      destruct (String.eqb_spec (key s) k'); [congruence | reflexivity].
    + destruct (String.eqb (key s) k'); [reflexivity | exact IH].
Qed.

Lemma upsertSetting_keys k v l :
  map key (upsertSetting k v l)
  = if bool_decide (k ∈ map key l) then map key l else map key l ++ [k].
Proof.
  induction l as [|s l IH]; cbn [upsertSetting map].
  - rewrite bool_decide_eq_false_2 by apply not_elem_of_nil. reflexivity.
  - destruct (String.eqb_spec (key s) k) as [E|E]; cbn [map].
    + rewrite bool_decide_eq_true_2 by (rewrite E; left). rewrite E. reflexivity.
    + rewrite IH. destruct (decide (k ∈ map key l)) as [B|B].
      * rewrite !bool_decide_eq_true_2; [reflexivity | right; exact B | exact B].
      * rewrite !bool_decide_eq_false_2; [reflexivity | | exact B].
        intros H. apply elem_of_cons in H as [H|H]; [congruence | auto].
Qed.

Lemma getSetting_setSetting k k' v d w :
  getSetting (setSetting k v w).2 k' d
  = if decide (k' = k) then v else getSetting w k' d.
Proof.
  unfold getSetting, setSetting. simpl. destruct (decide (k' = k)) as [->|Hne].
  - rewrite find_upsertSetting_eq. reflexivity.
  - rewrite find_upsertSetting_ne by exact Hne. reflexivity.
Qed.

(** X1: a setting written by [setSetting] is what [getSetting] returns
    for its key from then on, whatever default the reader passes, and
    every other key reads as before. *)
Theorem setSetting_read_back (k k' : string) (v d : jsval) (w : World) :
  getSetting (setSetting k v w).2 k d = v
  /\ (k' <> k -> getSetting (setSetting k v w).2 k' d = getSetting w k' d).
Proof.
  rewrite !getSetting_setSetting. split.
  - destruct (decide (k = k)); congruence.
  - intros Hne. destruct (decide (k' = k)); congruence.
Qed.

(** X2: [setSetting] never makes a second row for a key: the keys of the
    collection stay as they are, in their order, when the key has a row,
    and the key is appended when it has none; nothing but the Setting
    collection is touched. *)
Theorem setSetting_keys (k : string) (v : jsval) (w : World) :
  let w' := (setSetting k v w).2 in
  map key (settings w')
  = (if bool_decide (k ∈ map key (settings w)) then map key (settings w)
     else map key (settings w) ++ [k])
  /\ (NoDup (map key (settings w)) -> NoDup (map key (settings w')))
  /\ set_settings (settings w) w' = w.
Proof.
  intros w'. unfold w', setSetting. simpl. split; [apply upsertSetting_keys|].
  split; [|destruct w; reflexivity].
  intros Hnd. rewrite upsertSetting_keys. case_bool_decide as Hin; [exact Hnd|].
  apply NoDup_app. split; [exact Hnd|]. split; [|apply NoDup_singleton].
  intros x Hx Hx'. apply list_elem_of_singleton in Hx'. subst x. auto.
Qed.

Lemma postSettings_cons k v updates w :
  postSettings ((k, v) :: updates) w = postSettings updates (setSetting k v w).2.
Proof. reflexivity. Qed.

Lemma getSetting_postSettings_notin updates : forall w k d,
  k ∉ map fst updates ->
  getSetting (postSettings updates w) k d = getSetting w k d.
Proof.
  induction updates as [|[k0 v0] updates IH]; intros w k d Hk; [reflexivity|].
  rewrite postSettings_cons, IH.
  - rewrite getSetting_setSetting.
    destruct (decide (k = k0)) as [->|]; [|reflexivity].
    exfalso. apply Hk. left.
  - intros H. apply Hk. right. exact H.
Qed.

(** X3: after [POST /api/settings] with a body of distinct keys, every
    key of the body reads back the value posted for it, and every key
    outside the body reads as before. *)
Theorem postSettings_reads (updates : list (string * jsval)) (w : World)
    (k : string) (v d : jsval) :
  NoDup (map fst updates) ->
  ((k, v) ∈ updates -> getSetting (postSettings updates w) k d = v)
  /\ (k ∉ map fst updates ->
      getSetting (postSettings updates w) k d = getSetting w k d).
Proof.
  intros Hnd. split; [|apply getSetting_postSettings_notin].
  revert w. induction updates as [|[k0 v0] updates IH]; intros w Hin.
  - apply elem_of_nil in Hin. contradiction.
  - cbn [map fst] in Hnd. apply NoDup_cons in Hnd as [Hk0 Hnd].
    rewrite postSettings_cons.
    apply elem_of_cons in Hin as [Hin|Hin].
    + injection Hin as -> ->.
      rewrite getSetting_postSettings_notin by exact Hk0.
      rewrite getSetting_setSetting. destruct (decide (k0 = k0)); congruence.
    + apply (IH Hnd). exact Hin.
Qed.

End SettingsStore.

Lemma postSettings_reads_witness :
  getSetting
    (postSettings [("notify_info", JBool true); ("admin_phone", JStr "0812")]
       exampleWorld) "notify_info" (JBool false)
  = JBool true.
Proof.
  apply (postSettings_reads
           [("notify_info", JBool true); ("admin_phone", JStr "0812")]
           exampleWorld "notify_info" (JBool true) (JBool false)).
  - apply NoDup_cons. split; [|apply NoDup_singleton].
    intros H. apply list_elem_of_singleton in H. discriminate.
  - left.
Defined.

(** ** The bot's commands and the recipients of the fan-out *)

Section BotCommands.

Variable botSend : Z -> Reply -> option string.

Lemma substring_all s : String.substring 0 (String.length s) s = s.
Proof. induction s as [|c s IH]; simpl; [reflexivity | rewrite IH; reflexivity]. Qed.

Lemma append_String a s t : String a s +:+ t = String a (s +:+ t).
Proof. reflexivity. Qed.

Lemma append_empty t : EmptyString +:+ t = t.
Proof. reflexivity. Qed.

(** A key that starts with a prefix is the prefix followed by what
    [replace] leaves of it. *)
Lemma prefix_split p : forall k,
  String.prefix p k = true ->
  k = p +:+ String.substring (String.length p)
              (String.length k - String.length p) k.
Proof.
  induction p as [|a p IH]; intros k Hp.
  - rewrite append_empty. simpl. rewrite Nat.sub_0_r, substring_all.
    reflexivity.
  - destruct k as [|b k]; simpl in Hp; [discriminate|].
    destruct (Ascii.ascii_dec a b) as [->|]; [|discriminate].
    rewrite append_String. simpl. f_equal. apply IH, Hp.
Qed.

Lemma prefix_append p x : String.prefix p (p +:+ x) = true.
Proof.
  induction p as [|a p IH].
  - rewrite append_empty. destruct x; reflexivity.
  - rewrite append_String. simpl.
    destruct (Ascii.ascii_dec a a); [exact IH | congruence].
Qed.

Lemma chatId_of_subscriptionKey chatId v :
  chatId_of (mkSetting (subscriptionKey chatId) v) = pretty chatId.
Proof.
  unfold chatId_of, subscriptionKey, telegram_subscribed.
  cbn [key]. rewrite !append_String, append_empty. simpl.
  rewrite Nat.sub_0_r. apply substring_all.
Qed.

Lemma key_of_chatId s :
  String.prefix telegram_subscribed (key s) = true ->
  key s = telegram_subscribed +:+ chatId_of s.
Proof. intros Hp. apply (prefix_split _ _ Hp). Qed.

Lemma In_subscribedChats w s :
  In s (subscribedChats w)
  <-> In s (settings w)
      /\ String.prefix telegram_subscribed (key s) = true
      /\ value s = JBool true.
Proof.
  unfold subscribedChats. rewrite !filter_In, bool_decide_eq_true. tauto.
Qed.

Lemma In_upsertSetting_new k v l : In (mkSetting k v) (upsertSetting k v l).
Proof.
  induction l as [|s l IH]; simpl; [left; reflexivity|].
  destruct (String.eqb (key s) k); [left; reflexivity | right; exact IH].
Qed.

Lemma In_upsertSetting_other k v l s :
  key s <> k -> In s (upsertSetting k v l) <-> In s l.
Proof.
  intros Hne. induction l as [|x l IH]; simpl.
  - split; [intros [<-|[]]; simpl in Hne; congruence | tauto].
  - destruct (String.eqb_spec (key x) k) as [E|E]; simpl.
    + split; intros [H|H]; try (right; exact H);
        subst s; simpl in Hne; congruence.
    + rewrite IH. tauto.
Qed.

Lemma In_upsertSetting_same k v l s :
  NoDup (map key l) -> key s = k -> In s (upsertSetting k v l) ->
  s = mkSetting k v.
Proof.
  intros Hnd Hk. induction l as [|x l IH]; simpl.
  - intros [<-|[]]. reflexivity.
  - cbn [map] in Hnd. apply NoDup_cons in Hnd as [Hx Hnd].
    destruct (String.eqb_spec (key x) k) as [E|E]; simpl.
    + intros [<-|H]; [reflexivity|]. exfalso. apply Hx.
      rewrite E, <- Hk. apply list_elem_of_In, in_map. exact H.
    + intros [<-|H]; [congruence | apply IH; assumption].
Qed.

(** A write under a subscription key changes the recipients of no other
    channel and the subscription of no other chat. *)
Lemma subscription_write_frame chatId v w :
  let w' := (setSetting (subscriptionKey chatId) v w).2 in
  emailTargets w' = emailTargets w
  /\ whatsappTargets w' = whatsappTargets w
  /\ getSetting w' "telegram_enabled" (JBool true)
     = getSetting w "telegram_enabled" (JBool true)
  /\ clients w' = clients w
  /\ forall s, key s <> subscriptionKey chatId ->
               In s (subscribedChats w') <-> In s (subscribedChats w).
Proof.
  intros w'. unfold emailTargets, whatsappTargets, w'.
  rewrite !getSetting_setSetting.
  repeat (destruct (decide _) as [E|_];
          [unfold subscriptionKey, telegram_subscribed in E; simpl in E;
           discriminate|]).
  split; [reflexivity|]. split; [reflexivity|]. split; [reflexivity|].
  split; [reflexivity|].
  intros s Hs. rewrite !In_subscribedChats. simpl.
  rewrite (In_upsertSetting_other _ _ _ _ Hs). tauto.
Qed.

Lemma handle_subscribe chatId text now w :
  toLowerCase (firstWord text) = "/subscribe" ->
  handleTelegramCommand botSend chatId text now w
  = ((setSetting (subscriptionKey chatId) (JBool true) w).2,
     sendReply botSend chatId ReplySubscribed).
Proof. intros Hc. unfold handleTelegramCommand. rewrite Hc. reflexivity. Qed.

Lemma handle_unsubscribe chatId text now w :
  toLowerCase (firstWord text) = "/unsubscribe" ->
  handleTelegramCommand botSend chatId text now w
  = ((setSetting (subscriptionKey chatId) (JBool false) w).2,
     sendReply botSend chatId ReplyUnsubscribed).
Proof. intros Hc. unfold handleTelegramCommand. rewrite Hc. reflexivity. Qed.

(** X4: [/subscribe], in any letter case and whatever follows it on the
    line, makes the chat a subscriber: its id is among the Telegram
    recipients of the next fan-out whenever Telegram is enabled and
    ready, whatever became of the bot's answer; no other chat's
    subscription and no other channel's recipient changes. *)
Theorem subscribe_makes_recipient (chatId : Z) (text : string) (now : Z)
    (w : World) :
  toLowerCase (firstWord text) = "/subscribe" ->
  let w' := (handleTelegramCommand botSend chatId text now w).1 in
  In (mkSetting (subscriptionKey chatId) (JBool true)) (subscribedChats w')
  /\ (truthy (getSetting w "telegram_enabled" (JBool true))
      && telegramReady (clients w) = true ->
      In (Telegram, JStr (pretty chatId)) (targets w'))
  /\ (forall s, key s <> subscriptionKey chatId ->
                In s (subscribedChats w') <-> In s (subscribedChats w))
  /\ emailTargets w' = emailTargets w
  /\ whatsappTargets w' = whatsappTargets w.
Proof.
  intros Hc w'. unfold w'. rewrite (handle_subscribe _ _ _ _ Hc). cbn [fst].
  destruct (subscription_write_frame chatId (JBool true) w)
    as (He & Hw & Ht & Hcl & Hs).
  assert (Hin : In (mkSetting (subscriptionKey chatId) (JBool true))
                  (subscribedChats (setSetting (subscriptionKey chatId)
                                      (JBool true) w).2)).
  { apply In_subscribedChats. split; [apply In_upsertSetting_new|].
    split; [apply prefix_append | reflexivity]. }
  split; [exact Hin|]. split; [|split; [exact Hs | split; assumption]].
  intros Hon. unfold targets, telegramTargets. rewrite !in_app_iff.
  right; right. rewrite Ht, Hcl, Hon.
  apply in_map_iff. eexists. split; [|exact Hin].
  rewrite chatId_of_subscriptionKey. reflexivity.
Qed.

(** X5: [/unsubscribe] takes the chat out of the recipients: with the
    keys of the Setting collection distinct (its schema makes [key]
    unique), the chat's id is no recipient of the next fan-out, and no
    other chat's subscription changes. *)
Theorem unsubscribe_removes_recipient (chatId : Z) (text : string) (now : Z)
    (w : World) :
  NoDup (map key (settings w)) ->
  toLowerCase (firstWord text) = "/unsubscribe" ->
  let w' := (handleTelegramCommand botSend chatId text now w).1 in
  ~ In (Telegram, JStr (pretty chatId)) (targets w')
  /\ (forall s, key s <> subscriptionKey chatId ->
                In s (subscribedChats w') <-> In s (subscribedChats w)).
Proof.
  intros Hnd Hc w'. unfold w'. rewrite (handle_unsubscribe _ _ _ _ Hc).
  cbn [fst].
  destruct (subscription_write_frame chatId (JBool false) w)
    as (_ & _ & _ & _ & Hs).
  split; [|exact Hs].
  unfold targets, emailTargets, whatsappTargets, telegramTargets.
  rewrite !in_app_iff. intros [H|[H|H]].
  - destruct (_ && _); simpl in H; [destruct H as [H|[]]; discriminate | exact H].
  - destruct (_ && _ && _); simpl in H;
      [destruct H as [H|[]]; discriminate | exact H].
  - destruct (_ && _); [|exact H].
    apply in_map_iff in H as (s & Hid & Hin). injection Hid as Hid.
    apply In_subscribedChats in Hin as (Hin & Hp & Hv).
    assert (Hk : key s = subscriptionKey chatId).
    { rewrite (key_of_chatId s Hp), Hid. reflexivity. }
    simpl in Hin. apply (In_upsertSetting_same _ _ _ _ Hnd Hk) in Hin.
    subst s. discriminate.
Qed.

(** X6: no other text writes anything: unless its first word is
    [/subscribe] or [/unsubscribe] in some letter case, a message leaves
    the state as it was; and a text whose first word is none of the seven
    commands gets no answer. *)
Theorem other_commands_write_nothing (chatId : Z) (text : string) (now : Z)
    (w : World) :
  let command := toLowerCase (firstWord text) in
  let r := handleTelegramCommand botSend chatId text now w in
  (command <> "/subscribe" -> command <> "/unsubscribe" -> r.1 = w)
  /\ (~ In command ["/start"; "/status"; "/subscribe"; "/unsubscribe";
                    "/alerts"; "/uptime"; "/help"] -> r.2 = [])
  /\ (length r.2 <= 2)%nat.
Proof.
  cbv zeta. unfold handleTelegramCommand.
  generalize (toLowerCase (firstWord text)) as c. intros c.
  assert (Hlen : forall x, (length (sendReply botSend chatId x) <= 2)%nat).
  { intros x. unfold sendReply. destruct (botSend chatId x); simpl; lia. }
  destruct (String.eqb_spec c "/start") as [E1|E1].
  { split; [reflexivity|]. split; [|apply Hlen].
    intros Hn. exfalso. apply Hn. rewrite E1. simpl. tauto. }
  destruct (String.eqb_spec c "/status") as [E2|E2].
  { destruct (find isActive (servers w));
      (split; [reflexivity|]; split; [|apply Hlen]);
      intros Hn; exfalso; apply Hn; rewrite E2; simpl; tauto. }
  destruct (String.eqb_spec c "/subscribe") as [E3|E3].
  { split; [intros H; contradiction|]. split; [|apply Hlen].
    intros Hn. exfalso. apply Hn. rewrite E3. simpl. tauto. }
  destruct (String.eqb_spec c "/unsubscribe") as [E4|E4].
  { split; [intros _ H; contradiction|]. split; [|apply Hlen].
    intros Hn. exfalso. apply Hn. rewrite E4. simpl. tauto. }
  destruct (String.eqb_spec c "/alerts") as [E5|E5].
  { destruct (recentAlerts now w);
      (split; [reflexivity|]; split; [|apply Hlen]);
      intros Hn; exfalso; apply Hn; rewrite E5; simpl; tauto. }
  destruct (String.eqb_spec c "/uptime") as [E6|E6].
  { split; [reflexivity|]. split; [|apply Hlen].
    intros Hn. exfalso. apply Hn. rewrite E6. simpl. tauto. }
  destruct (String.eqb_spec c "/help") as [E7|E7].
  { split; [reflexivity|]. split; [|apply Hlen].
    intros Hn. exfalso. apply Hn. rewrite E7. simpl. tauto. }
  split; [reflexivity|]. split; [reflexivity | simpl; lia].
Qed.

End BotCommands.

Lemma subscribe_makes_recipient_witness :
  In (Telegram, JStr "4242")
    (targets (handleTelegramCommand (fun _ _ => Some "blocked") 4242
                "/SUBSCRIBE please" 0 exampleWorld).1).
Proof.
  assert (Hc : toLowerCase (firstWord "/SUBSCRIBE please") = "/subscribe")
    by (vm_compute; reflexivity).
  destruct (subscribe_makes_recipient (fun _ _ => Some "blocked") 4242
              "/SUBSCRIBE please" 0 exampleWorld Hc) as (_ & Ht & _).
  apply Ht. vm_compute. reflexivity.
Defined.

Lemma unsubscribe_removes_recipient_witness :
  ~ In (Telegram, JStr "1001")
      (targets (handleTelegramCommand (fun _ _ => None) 1001
                  "/unsubscribe" 0 exampleWorld).1).
Proof.
  assert (Hc : toLowerCase (firstWord "/unsubscribe") = "/unsubscribe")
    by (vm_compute; reflexivity).
  assert (Hnd : NoDup (map key (settings exampleWorld))).
  { apply (bool_decide_unpack _). vm_compute. exact I. }
  destruct (unsubscribe_removes_recipient (fun _ _ => None) 1001
              "/unsubscribe" 0 exampleWorld Hnd Hc) as (Hout & _).
  exact Hout.
Defined.

(** ** The list of [/alerts] *)

Section Alerts.

Lemma recentAlerts_sorted now w :
  let found :=
    List.filter
      (fun i => String.eqb (status i) "active"
                && (now - alertWindow <=? createdAt i)) (incidents w) in
  recentAlerts now w = take 5 (merge_sort newerFirst found)
  /\ StronglySorted newerFirst (merge_sort newerFirst found)
  /\ merge_sort newerFirst found ≡ₚ found.
Proof.
  intros found. split; [reflexivity|].
  split; [apply StronglySorted_merge_sort; apply _ | apply merge_sort_Permutation].
Qed.

(** X7: [/alerts] lists five incidents at most, each of them active and
    created in the last 24 hours, the newest first; and an active
    incident of the last 24 hours that is not listed is no newer than any
    that is. *)
Theorem alerts_newest_five (now : Z) (w : World) :
  let l := recentAlerts now w in
  (length l <= 5)%nat
  /\ Forall (fun i => In i (incidents w) /\ status i = "active"
                      /\ now - alertWindow <= createdAt i) l
  /\ StronglySorted newerFirst l
  /\ (forall i j,
         In i (incidents w) -> status i = "active" ->
         now - alertWindow <= createdAt i ->
         ~ In i l -> In j l -> createdAt i <= createdAt j).
Proof.
  intros l. destruct (recentAlerts_sorted now w) as (Hl & Hs & Hp).
  set (found := List.filter _ (incidents w)) in *.
  set (sorted := merge_sort newerFirst found) in *.
  fold l in Hl.
  assert (Hsplit : sorted = l ++ drop 5 sorted)
    by (rewrite Hl; symmetry; apply take_drop).
  assert (Hfound : forall i, In i found <->
            In i (incidents w) /\ status i = "active"
            /\ now - alertWindow <= createdAt i).
  { intros i. unfold found. rewrite filter_In, andb_true_iff, String.eqb_eq,
      Z.leb_le. tauto. }
  split; [rewrite Hl, length_take; lia|]. split; [|split].
  - apply Forall_forall. intros i Hi. apply Hfound.
    apply list_elem_of_In. rewrite <- Hp, Hsplit. apply elem_of_app. left.
    exact Hi.
  - rewrite Hsplit in Hs. apply StronglySorted_app_1_l in Hs. exact Hs.
  - intros i j Hi Ha Hr Hni Hj.
    assert (Hin : i ∈ sorted).
    { rewrite Hp. apply list_elem_of_In, Hfound. auto. }
    rewrite Hsplit in Hin. apply elem_of_app in Hin as [Hin|Hin].
    { exfalso. apply Hni, list_elem_of_In, Hin. }
    rewrite Hsplit in Hs.
    apply (StronglySorted_app_1_elem_of _ _ _ j i Hs);
      [apply list_elem_of_In, Hj | exact Hin].
Qed.

End Alerts.

(** ** Diagnostics against the detector *)

Section DiagnosticsFacts.

Variables (server : Server) (st : Status).

Lemma detectIssues_types :
  map issue_type (detectIssues server st)
  = (if online st then [] else ["server_offline"])
    ++ (if 1000 <? responseTime st then ["high_latency"] else [])
    ++ match is_full st with Some _ => ["full_capacity"] | None => [] end
    ++ match is_old_version st with
       | Some _ => ["version_mismatch"]
       | None => []
       end.
Proof.
  rewrite detectIssues_app.
  destruct (online st), (1000 <? responseTime st), (is_full st),
    (is_old_version st); reflexivity.
Qed.

(** X8: what the status endpoint reports agrees with what the detector
    raises for the same status: the network is [unhealthy] exactly when
    server_offline is raised; when high_latency is raised the latency is
    rated [poor]; when full_capacity is raised the load is [high]; and a
    version rated [compatible] raises no version_mismatch. *)
Theorem diagnostics_agree_with_detector :
  let d := getServerDiagnostics server (Some st) in
  let raised := map issue_type (detectIssues server st) in
  (In "server_offline" raised <-> network d = "unhealthy")
  /\ (In "high_latency" raised -> latencyStatus d = "poor")
  /\ (In "full_capacity" raised -> serverLoad d = "high")
  /\ (versionCompatibility d = "compatible" -> ~ In "version_mismatch" raised).
Proof.
  cbv zeta. rewrite detectIssues_types. simpl.
  split; [|split; [|split]].
  - destruct (online st); rewrite !in_app_iff; simpl; split.
    + intros [[]|[H|[H|H]]];
        [destruct (1000 <? responseTime st) | destruct (is_full st)
         | destruct (is_old_version st)];
        simpl in H; intuition discriminate.
    + discriminate.
    + reflexivity.
    + intros _. left. left. reflexivity.
  - rewrite !in_app_iff. intros [H|[H|[H|H]]].
    + destruct (online st); simpl in H; intuition discriminate.
    + destruct (Z.ltb_spec 1000 (responseTime st)); simpl in H; [|contradiction].
      destruct (Z.ltb_spec (responseTime st) 100); [lia|].
      destruct (Z.ltb_spec (responseTime st) 300); [lia|].
      destruct (Z.ltb_spec (responseTime st) 500); [lia|]. reflexivity.
    + destruct (is_full st); simpl in H; intuition discriminate.
    + destruct (is_old_version st); simpl in H; intuition discriminate.
  - rewrite !in_app_iff. intros [H|[H|[H|H]]].
    + destruct (online st); simpl in H; intuition discriminate.
    + destruct (1000 <? responseTime st); simpl in H; intuition discriminate.
    + destruct (is_full st) as [p|] eqn:Hf; simpl in H; [|contradiction].
      apply is_full_Some in Hf as (Hp & He & Hm). rewrite Hp.
      destruct (Z.ltb_spec (4 * players_max p) (5 * players_online p));
        [reflexivity | lia].
    + destruct (is_old_version st); simpl in H; intuition discriminate.
  - intros Hc. rewrite !in_app_iff. intros [H|[H|[H|H]]].
    + destruct (online st); simpl in H; intuition discriminate.
    + destruct (1000 <? responseTime st); simpl in H; intuition discriminate.
    + destruct (is_full st); simpl in H; intuition discriminate.
    + destruct (is_old_version st) as [v|] eqn:Hv; simpl in H; [|contradiction].
      apply is_old_version_Some in Hv as (Hver & p & Hp & _ & Hlt).
      rewrite Hver, Hp in Hc. unfold minProtocol in Hlt.
      destruct (Z.eqb_spec p 671); [lia | discriminate].
Qed.

End DiagnosticsFacts.

(** ** The WhatsApp address of a phone number *)

Section PhoneFormat.





End PhoneFormat.

(** ** Start-up: [loadServers] *)

Section StartUp.

Variable provider : Channel -> jsval -> Template -> option string.

Lemma checkServer_servers server probe now w :
  servers (checkServer provider server probe now w).2
  = upsertServer (checkServer provider server probe now w).1 (servers w)
  /\ server_id (checkServer provider server probe now w).1 = server_id server
  /\ totalChecks (stats (checkServer provider server probe now w).1)
     = totalChecks (stats server) + 1.
Proof.
  unfold checkServer, checkFailed.
  destruct probe as [[d|] elapsed|message elapsed]; simpl;
    rewrite checkForIssues_servers;
    (split; [reflexivity | try destruct (data_online d); split; reflexivity]).
Qed.

Lemma findServerById_upsert_ne s l id :
  server_id s <> id ->
  List.find (fun x => Nat.eqb (server_id x) id) (upsertServer s l)
  = List.find (fun x => Nat.eqb (server_id x) id) l.
Proof.
  intros Hne. induction l as [|x l IH]; simpl.
  - destruct (Nat.eqb_spec (server_id s) id); [congruence | reflexivity].
  - destruct (Nat.eqb_spec (server_id x) (server_id s)) as [E|E]; simpl.
    + destruct (Nat.eqb_spec (server_id s) id); [congruence|].
      destruct (Nat.eqb_spec (server_id x) id); [congruence | reflexivity].
    + destruct (Nat.eqb (server_id x) id); [reflexivity | exact IH].
Qed.

Lemma findServerById_In l s :
  NoDup (map server_id l) -> In s l ->
  List.find (fun x => Nat.eqb (server_id x) (server_id s)) l = Some s.
Proof.
  induction l as [|x l IH]; simpl; intros Hnd Hin; [contradiction|].
  apply NoDup_cons in Hnd as [Hx Hnd].
  destruct (Nat.eqb_spec (server_id x) (server_id s)) as [E|E].
  - destruct Hin as [->|Hin]; [reflexivity|].
    exfalso. apply Hx. rewrite E. apply list_elem_of_In, in_map. exact Hin.
  - destruct Hin as [->|Hin]; [contradiction|]. apply IH; assumption.
Qed.

(** What [startMonitoring] does to the registry and to the rows. *)
Lemma startMonitoring_effect server probe now w :
  let w' := (startMonitoring provider server probe now w).2 in
  monitoring w'
  = <[toString (server_id server) := nextTimer w]> (monitoring w)
  /\ (forall id, id <> server_id server ->
                 findServerById w' id = findServerById w id)
  /\ exists s',
       findServerById w' (server_id server) = Some s'
       /\ totalChecks (stats s') = totalChecks (stats server) + 1.
Proof.
  intros w'. unfold w'. rewrite startMonitoring_armTimer.
  destruct (checkServer_framed provider server probe now (armTimer server w))
    as (_ & _ & Hm & _).
  destruct (checkServer_servers server probe now (armTimer server w))
    as (Hs & Hid & Htc).
  split; [|split].
  - rewrite Hm. unfold armTimer.
    destruct (monitoring w !! toString (server_id server)); reflexivity.
  - intros id Hne. unfold findServerById. rewrite Hs.
    rewrite findServerById_upsert_ne by congruence.
    unfold armTimer.
    destruct (monitoring w !! toString (server_id server)); reflexivity.
  - eexists. split; [|exact Htc]. unfold findServerById.
    rewrite Hs, <- Hid. apply findServerById_upsert.
Qed.

Lemma startMonitoring_agrees server probe now w :
  registryAgrees w ->
  registryAgrees (startMonitoring provider server probe now w).2.
Proof. intros H. apply (engineCall_agrees provider (CallStart server probe now)), H. Qed.

(** Monitoring started for the servers of a list, one after the other. *)
Lemma loadServers_fold probes now l : forall w,
  registryAgrees w ->
  let w' :=
    foldl (fun w server =>
             (startMonitoring provider server (probes (server_id server)) now w).2)
      w l in
  registryAgrees w'
  /\ (forall s, In s l -> is_Some (monitoring w' !! toString (server_id s)))
  /\ (forall k, (forall s, In s l -> toString (server_id s) <> k) ->
                monitoring w' !! k = monitoring w !! k)
  /\ (forall id, ~ In id (map server_id l) ->
                 findServerById w' id = findServerById w id)
  /\ (NoDup (map server_id l) ->
      forall s, In s l ->
        exists s', findServerById w' (server_id s) = Some s'
                   /\ totalChecks (stats s') = totalChecks (stats s) + 1).
Proof.
  induction l as [|x l IH]; intros w Hw; cbn [foldl].
  - cbv zeta. split; [exact Hw|]. split; [intros s []|].
    split; [reflexivity|]. split; [reflexivity | intros _ s []].
  - set (w1 := (startMonitoring provider x (probes (server_id x)) now w).2).
    destruct (startMonitoring_effect x (probes (server_id x)) now w)
      as (Hm1 & Hf1 & s1 & Hs1 & Htc1). fold w1 in Hm1, Hf1, Hs1.
    destruct (IH w1 (startMonitoring_agrees _ _ _ _ Hw))
      as (Ha & Hreg & Hother & Hrows & Hchk).
    cbv zeta. split; [exact Ha|]. split; [|split; [|split]].
    + intros s [<-|Hs]; [|apply Hreg, Hs].
      destruct (in_dec String.string_dec (toString (server_id x))
                  (map (fun s => toString (server_id s)) l))
        as [Hin|Hn].
      * apply in_map_iff in Hin as (s' & E & Hs').
        rewrite <- E. apply Hreg, Hs'.
      * rewrite Hother, Hm1, lookup_insert_eq; [eauto|].
        intros s' Hs' E. apply Hn, in_map_iff. eauto.
    + intros k Hk. rewrite Hother by (intros s Hs; apply Hk; right; exact Hs).
      rewrite Hm1. apply lookup_insert_ne, Hk. left. reflexivity.
    + intros id Hid. rewrite Hrows by (intros H; apply Hid; right; exact H).
      apply Hf1. intros ->. apply Hid. left. reflexivity.
    + intros Hnd s Hs. cbn [map] in Hnd. apply NoDup_cons in Hnd as [Hx Hnd].
      destruct Hs as [<-|Hs]; [|apply (Hchk Hnd), Hs].
      exists s1. split; [|exact Htc1].
      rewrite Hrows; [exact Hs1|]. intros H. apply Hx, list_elem_of_In, H.
Qed.

Lemma NoDup_map_filter {A B} (f : A -> B) (P : A -> bool) (l : list A) :
  NoDup (map f l) -> NoDup (map f (List.filter P l)).
Proof.
  induction l as [|x l IH]; simpl; intros Hnd; [exact Hnd|].
  apply NoDup_cons in Hnd as [Hx Hnd]. destruct (P x); simpl; [|auto].
  apply NoDup_cons. split; [|auto].
  intros Hin. apply Hx. apply list_elem_of_In in Hin.
  apply in_map_iff in Hin as (y & <- & Hy). apply filter_In in Hy as [Hy _].
  apply list_elem_of_In, in_map, Hy.
Qed.

(** X10: after [loadServers] every active server of the collection has a
    poll timer, live and registered under its id, and it is the only
    poll timer of that server; a key that belongs to no active server
    keeps the registry entry it had. *)
Theorem loadServers_arms_active (probes : ObjectId -> ProbeOutcome) (now : Z)
    (w : World) :
  registryAgrees w ->
  let w' := loadServers provider probes now w in
  (forall s, In s (servers w) -> isActive s = true ->
     exists h,
       monitoring w' !! toString (server_id s) = Some h
       /\ timers w' !! h = Some (PollJob (server_id s))
       /\ forall h', timers w' !! h' = Some (PollJob (server_id s)) -> h' = h)
  /\ (forall k,
         (forall s, In s (servers w) -> isActive s = true ->
                    toString (server_id s) <> k) ->
         monitoring w' !! k = monitoring w !! k).
Proof.
  intros Hw. cbv zeta. unfold loadServers.
  destruct (loadServers_fold probes now (List.filter isActive (servers w)) w Hw)
    as ((A & B & _) & Hreg & Hother & _).
  split.
  - intros s Hs Ha.
    destruct (Hreg s) as [h Hh]; [apply filter_In; auto|].
    exists h. split; [exact Hh|].
    destruct (B _ _ Hh) as (sid & E & Hp). apply toString_inj in E. subst sid.
    split; [exact Hp|]. intros h' Hp'. apply A in Hp'. congruence.
  - intros k Hk. apply Hother. intros s Hs. apply filter_In in Hs as [Hs Ha].
    apply Hk; assumption.
Qed.

(** X11: [loadServers] checks every active server once: with the ids of
    the collection distinct, the row of an active server comes out with
    [totalChecks] one higher, and the row of an inactive server is the
    row it was. *)
Theorem loadServers_checks_once (probes : ObjectId -> ProbeOutcome) (now : Z)
    (w : World) (s : Server) :
  registryAgrees w -> NoDup (map server_id (servers w)) -> In s (servers w) ->
  let w' := loadServers provider probes now w in
  (isActive s = true ->
   exists s', findServerById w' (server_id s) = Some s'
              /\ totalChecks (stats s') = totalChecks (stats s) + 1)
  /\ (isActive s = false -> findServerById w' (server_id s) = Some s).
Proof.
  intros Hw Hnd Hs. cbv zeta. unfold loadServers.
  destruct (loadServers_fold probes now (List.filter isActive (servers w)) w Hw)
    as (_ & _ & _ & Hrows & Hchk).
  split.
  - intros Ha. apply (Hchk (NoDup_map_filter _ _ _ Hnd)).
    apply filter_In. auto.
  - intros Ha. rewrite Hrows.
    + apply findServerById_In; assumption.
    + intros Hin. apply in_map_iff in Hin as (s2 & E & Hs2).
      apply filter_In in Hs2 as [Hs2 Ha2].
      assert (Heq : Some s2 = Some s).
      { rewrite <- (findServerById_In _ s2 Hnd Hs2), E.
        apply findServerById_In; assumption. }
      injection Heq as ->. congruence.
Qed.

Lemma find_removeServer l id :
  NoDup (map server_id l) ->
  List.find (fun x => Nat.eqb (server_id x) id) (removeServer id l) = None.
Proof.
  induction l as [|x l IH]; simpl; intros Hnd; [reflexivity|].
  apply NoDup_cons in Hnd as [Hx Hnd].
  destruct (Nat.eqb_spec (server_id x) id) as [E|E].
  - destruct (List.find _ l) as [y|] eqn:Hf; [|reflexivity].
    exfalso. apply find_some in Hf as [Hy Hid]. apply Nat.eqb_eq in Hid.
    apply Hx. rewrite E, <- Hid. apply list_elem_of_In, in_map, Hy.
  - simpl. destruct (Nat.eqb_spec (server_id x) id); [contradiction|].
    apply IH, Hnd.
Qed.

(** X12: deleting a server, or switching it to inactive, does not stop
    its poll timer.  Both routes call [stopMonitoring] with the
    document's [_id], an [ObjectId], where the registry is keyed by the
    id's string: the row goes (or is updated) while the timers and the
    registry stay exactly as they were. *)
Theorem routes_leave_timer_running (id : ObjectId) (s : Server) (w : World)
    (update : Server -> Server) (probe : ProbeOutcome) (now : Z) :
  findServerById w id = Some s ->
  let w1 := deleteServer id w in
  let w2 := putServer provider id update probe now w in
  timers w1 = timers w /\ monitoring w1 = monitoring w
  /\ (NoDup (map server_id (servers w)) -> findServerById w1 id = None)
  /\ (server_id (update s) = server_id s -> isActive (update s) = false ->
      timers w2 = timers w /\ monitoring w2 = monitoring w
      /\ findServerById w2 id = Some (update s)).
Proof.
  intros Hf w1 w2. unfold w1, w2, deleteServer, putServer. rewrite Hf.
  pose proof Hf as Hid. apply find_some in Hid as [_ Hid].
  apply Nat.eqb_eq in Hid.
  split; [reflexivity|]. split; [reflexivity|]. split.
  - intros Hnd. unfold findServerById. simpl. rewrite Hid.
    apply find_removeServer, Hnd.
  - intros Hsame Hoff. rewrite Hsame, Nat.eqb_refl, Hoff. simpl.
    split; [reflexivity|]. split; [reflexivity|].
    unfold findServerById. rewrite <- Hid, <- Hsame.
    apply findServerById_upsert.
Qed.

End StartUp.

Lemma loadServers_arms_active_witness :
  exists h,
    monitoring (loadServers reliable allOnline 0 twoServers) !! toString 7%nat
    = Some h.
Proof.
  destruct (loadServers_arms_active reliable allOnline 0 twoServers
              (registryAgrees_empty exampleSettings allReady)) as (H & _).
  destruct (H lobby (or_introl eq_refl) eq_refl) as (h & Hh & _).
  exists h. exact Hh.
Defined.

Lemma loadServers_checks_once_witness :
  findServerById (loadServers reliable allOnline 0 twoServers) 8%nat
  = Some creative.
Proof.
  assert (Hnd : NoDup (map server_id (servers twoServers)))
    by (apply (bool_decide_unpack _); vm_compute; exact I).
  destruct (loadServers_checks_once reliable allOnline 0 twoServers creative
              (registryAgrees_empty exampleSettings allReady) Hnd
              (or_intror (or_introl eq_refl))) as (_ & H).
  apply H. reflexivity.
Defined.

Lemma routes_leave_timer_running_witness :
  let w := loadServers reliable allOnline 0 twoServers in
  timers (deleteServer 7%nat w) = timers w
  /\ is_Some (monitoring (deleteServer 7%nat w) !! toString 7%nat).
Proof.
  intros w.
  destruct (findServerById w 7%nat) as [s|] eqn:Hf;
    [|vm_compute in Hf; discriminate].
  destruct (routes_leave_timer_running reliable 7%nat s w (fun x => x)
              (allOnline 7%nat) 0 Hf) as (Ht & Hm & _).
  split; [exact Ht|]. rewrite Hm. vm_compute. eauto.
Defined.

(** ** Default data *)

Section Defaults.

Variable provider : Channel -> jsval -> Template -> option string.

Lemma find_key_In (l : list Setting) k :
  k ∈ map key l <-> is_Some (List.find (fun s => String.eqb (key s) k) l).
Proof.
  induction l as [|s l IH]; simpl.
  - split; [intros H; apply elem_of_nil in H; contradiction
           | intros [x H]; discriminate].
  - rewrite elem_of_cons. destruct (String.eqb_spec (key s) k) as [E|E].
    + split; [eauto | intros _; left; congruence].
    + rewrite <- IH. split; [intros [H|H]; [congruence | exact H] | auto].
Qed.

Lemma ensureSetting_present w kv :
  kv.1 ∈ map key (settings w) -> ensureSetting w kv = w.
Proof.
  intros H. apply find_key_In in H as [x Hx]. unfold ensureSetting.
  rewrite Hx. reflexivity.
Qed.

Lemma ensureSetting_absent w kv :
  kv.1 ∉ map key (settings w) -> ensureSetting w kv = (setSetting kv.1 kv.2 w).2.
Proof.
  intros H. unfold ensureSetting.
  destruct (List.find _ (settings w)) as [x|] eqn:Hx; [|reflexivity].
  exfalso. apply H, find_key_In. rewrite Hx. eauto.
Qed.

Lemma ensureSetting_keys w kv k :
  k ∈ map key (settings (ensureSetting w kv))
  <-> k ∈ map key (settings w) \/ k = kv.1.
Proof.
  destruct (decide (kv.1 ∈ map key (settings w))) as [H|H].
  - rewrite ensureSetting_present by exact H.
    split; [auto | intros [Hk| ->]; assumption].
  - rewrite ensureSetting_absent by exact H. unfold setSetting. simpl.
    rewrite upsertSetting_keys, bool_decide_eq_false_2 by exact H.
    rewrite elem_of_app, list_elem_of_singleton. tauto.
Qed.

Lemma ensureSetting_frame w kv :
  servers (ensureSetting w kv) = servers w
  /\ timers (ensureSetting w kv) = timers w
  /\ monitoring (ensureSetting w kv) = monitoring w
  /\ nextObjectId (ensureSetting w kv) = nextObjectId w.
Proof. unfold ensureSetting. destruct (List.find _ _); repeat split. Qed.

Lemma ensureSettings_frame defs : forall w,
  servers (ensureSettings defs w) = servers w
  /\ timers (ensureSettings defs w) = timers w
  /\ monitoring (ensureSettings defs w) = monitoring w
  /\ nextObjectId (ensureSettings defs w) = nextObjectId w.
Proof.
  induction defs as [|kv defs IH]; intros w; [repeat split|].
  destruct (IH (ensureSetting w kv)) as (A & B & C & D).
  destruct (ensureSetting_frame w kv) as (A' & B' & C' & D').
  unfold ensureSettings in *. cbn [foldl].
  rewrite A, B, C, D. repeat split; assumption.
Qed.

Lemma ensureSettings_keys defs : forall w k,
  k ∈ map key (settings (ensureSettings defs w))
  <-> k ∈ map key (settings w) \/ k ∈ map fst defs.
Proof.
  induction defs as [|kv defs IH]; intros w k.
  - simpl. rewrite elem_of_nil. tauto.
  - unfold ensureSettings in *. cbn [foldl map].
    rewrite IH, ensureSetting_keys, elem_of_cons. tauto.
Qed.

Lemma ensureSettings_present defs : forall w,
  (forall k, k ∈ map fst defs -> k ∈ map key (settings w)) ->
  ensureSettings defs w = w.
Proof.
  induction defs as [|kv defs IH]; intros w H; [reflexivity|].
  unfold ensureSettings in *. cbn [foldl].
  rewrite ensureSetting_present by (apply H; left).
  apply IH. intros k Hk. apply H. right. exact Hk.
Qed.

(** What a key reads after the loop. *)
Lemma ensureSettings_read defs : forall w k d,
  NoDup (map fst defs) ->
  (k ∈ map key (settings w) ->
   getSetting (ensureSettings defs w) k d = getSetting w k d)
  /\ (k ∉ map fst defs ->
      getSetting (ensureSettings defs w) k d = getSetting w k d)
  /\ (forall v, (k, v) ∈ defs -> k ∉ map key (settings w) ->
                getSetting (ensureSettings defs w) k d = v).
Proof.
  induction defs as [|[k0 v0] defs IH]; intros w k d Hnd.
  - split; [reflexivity|]. split; [reflexivity|].
    intros v Hv. apply elem_of_nil in Hv. contradiction.
  - cbn [map fst] in Hnd. apply NoDup_cons in Hnd as [Hk0 Hnd].
    unfold ensureSettings in *. cbn [foldl].
    destruct (IH (ensureSetting w (k0, v0)) k d Hnd) as (Hp & Hn & Ha).
    assert (Hstep : k ∈ map key (settings w) ->
                    getSetting (ensureSetting w (k0, v0)) k d = getSetting w k d).
    { intros Hk. destruct (decide (k0 ∈ map key (settings w))) as [H|H].
      - rewrite ensureSetting_present by exact H. reflexivity.
      - rewrite ensureSetting_absent by exact H. cbn [fst snd].
        rewrite getSetting_setSetting.
        destruct (decide (k = k0)) as [->|]; [contradiction | reflexivity]. }
    split; [|split].
    + intros Hk. rewrite Hp; [apply Hstep, Hk|].
      apply ensureSetting_keys. left. exact Hk.
    + intros Hk. rewrite Hn by (intros H; apply Hk; right; exact H).
      destruct (decide (k0 ∈ map key (settings w))) as [H|H].
      * rewrite ensureSetting_present by exact H. reflexivity.
      * rewrite ensureSetting_absent by exact H. cbn [fst snd].
        rewrite getSetting_setSetting.
        destruct (decide (k = k0)) as [->|]; [|reflexivity].
        exfalso. apply Hk. left.
    + intros v Hv Hk. apply elem_of_cons in Hv as [Hv|Hv].
      * injection Hv as -> ->.
        rewrite Hn by exact Hk0.
        rewrite ensureSetting_absent by exact Hk. cbn [fst snd].
        rewrite getSetting_setSetting. destruct (decide (k0 = k0)); congruence.
      * apply Ha; [exact Hv|]. intros H. apply ensureSetting_keys in H as [H|H];
          [contradiction|].
        cbn [fst] in H. subst k0. apply Hk0.
        apply list_elem_of_In, (in_map fst _ (k, v)), list_elem_of_In, Hv.
Qed.

Lemma defaultSettings_NoDup : NoDup (map fst defaultSettings).
Proof. apply (bool_decide_unpack _). vm_compute. exact I. Qed.

(** X13: the default data never overwrites: a setting that has a row
    reads after [checkDefaultData] as it read before; a default whose key
    had no row reads its default value; a key that is no default reads as
    before; and running [checkDefaultData] a second time changes
    nothing. *)
Theorem defaults_fill_gaps_only (w : World) (k : string) (d : jsval) :
  let w' := checkDefaultData w in
  (k ∈ map key (settings w) -> getSetting w' k d = getSetting w k d)
  /\ (forall v, (k, v) ∈ defaultSettings -> k ∉ map key (settings w) ->
                getSetting w' k d = v)
  /\ (k ∉ map fst defaultSettings -> getSetting w' k d = getSetting w k d)
  /\ checkDefaultData w' = w'.
Proof.
  intros w'. unfold w', checkDefaultData.
  set (w0 := match servers w with [] => _ | _ :: _ => w end).
  assert (Hset : settings w0 = settings w)
    by (unfold w0; destruct (servers w); reflexivity).
  assert (Hget : forall k d, getSetting w0 k d = getSetting w k d)
    by (intros; unfold getSetting; rewrite Hset; reflexivity).
  destruct (ensureSettings_read defaultSettings w0 k d defaultSettings_NoDup)
    as (Hp & Hn & Ha).
  rewrite Hset in Hp, Ha. rewrite Hget in Hp, Hn.
  split; [exact Hp|]. split; [exact Ha|]. split; [exact Hn|].
  destruct (ensureSettings_frame defaultSettings w0) as (Hs & _).
  assert (Hne : servers w0 <> []).
  { unfold w0. destruct (servers w) as [|x l] eqn:E.
    - simpl. rewrite E. simpl. discriminate.
    - rewrite E. discriminate. }
  rewrite Hs. destruct (servers w0) as [|x l]; [contradiction|].
  apply ensureSettings_present. intros k' Hk'.
  apply ensureSettings_keys. right. exact Hk'.
Qed.

(** X14: on a database with no server the start-up sequence, which loads
    the servers before it creates the default data, ends with the default
    server stored and active but with no poll timer: the timers and the
    registry are as the process found them. *)
Theorem first_boot_leaves_default_unmonitored
    (probes : ObjectId -> ProbeOutcome) (now : Z) (w : World) :
  servers w = [] ->
  let w' := checkDefaultData (loadServers provider probes now w) in
  servers w' = [defaultServer (nextObjectId w)]
  /\ isActive (defaultServer (nextObjectId w)) = true
  /\ timers w' = timers w
  /\ monitoring w' = monitoring w.
Proof.
  intros He w'. unfold w', loadServers. rewrite He. cbn [List.filter foldl].
  unfold checkDefaultData. rewrite He.
  destruct (ensureSettings_frame defaultSettings
              (set_nextObjectId (S (nextObjectId w))
                 (saveServer (defaultServer (nextObjectId w)) w)))
    as (A & B & C & _).
  rewrite A, B, C. simpl. rewrite He. repeat split.
Qed.

End Defaults.

Lemma first_boot_leaves_default_unmonitored_witness :
  let w' := checkDefaultData (loadServers reliable allOnline 0 exampleWorld) in
  servers w' = [defaultServer 0%nat] /\ timers w' = ∅.
Proof.
  destruct (first_boot_leaves_default_unmonitored reliable allOnline 0
              exampleWorld eq_refl) as (Hs & _ & Ht & _).
  split; [exact Hs | exact Ht].
Defined.

(** ** Outages from the first failed check to the recovery *)

Section Outage.

Variable provider : Channel -> jsval -> Template -> option string.

(** X15: a server_offline incident that [handleIssue] creates gets its
    watcher: a recovery timer is armed under a fresh handle, registered
    under the incident's id, and it closes over the document whose row
    was persisted; an incident of any other type arms nothing. *)
Theorem offline_incident_arms_watcher (server : Server) (issue : Issue)
    (now : Z) (w : World) :
  findActiveIncident w (server_id server) (issue_type issue) now = None ->
  let w' := handleIssue provider server issue now w in
  (issue_type issue = "server_offline" ->
   exists doc,
     timers w' !! nextTimer w = Some (RecoveryJob server doc)
     /\ incidentCheckers w' !! toString (nextObjectId w) = Some (nextTimer w)
     /\ incident_id (doc_row doc) = nextObjectId w
     /\ findIncidentById w' (nextObjectId w) = Some (doc_row doc))
  /\ (issue_type issue <> "server_offline" ->
      timers w' = timers w /\ incidentCheckers w' = incidentCheckers w).
Proof.
  intros Hnone w'. unfold w', handleIssue. rewrite Hnone.
  set (incident := newIncident (nextObjectId w) server issue now).
  set (w1 := saveIncident incident _).
  destruct (truthy (shouldSend w1 (severity (doc_row incident)))) eqn:Hs.
  - rewrite sendIncidentNotifications_eq by exact Hs.
    destruct (String.eqb_spec (issue_type issue) "server_offline") as [E|E].
    + split; [intros _ | intros H; contradiction].
      exists (on_row (set_notificationsSent true) incident).
      split; [apply lookup_insert_eq|]. split; [apply lookup_insert_eq|].
      split; [reflexivity|].
      apply (findIncidentById_upsert
               (set_notificationsSent true (doc_row incident))).
    + split; [intros H; contradiction | intros _; split; reflexivity].
  - rewrite sendIncidentNotifications_gated by exact Hs.
    destruct (String.eqb_spec (issue_type issue) "server_offline") as [E|E].
    + split; [intros _ | intros H; contradiction].
      exists incident.
      split; [apply lookup_insert_eq|]. split; [apply lookup_insert_eq|].
      split; [reflexivity|].
      apply (findIncidentById_upsert (doc_row incident)).
    + split; [intros H; contradiction | intros _; split; reflexivity].
Qed.






End Outage.

Lemma offline_incident_arms_watcher_witness :
  findActiveIncident exampleWorld (server_id lobby) (issue_type lobbyOffline) 0
  = None
  /\ exists doc,
       timers (handleIssue mailDown lobby lobbyOffline 0 exampleWorld)
         !! nextTimer exampleWorld
       = Some (RecoveryJob lobby doc)
       /\ findIncidentById (handleIssue mailDown lobby lobbyOffline 0 exampleWorld)
            (nextObjectId exampleWorld)
          = Some (doc_row doc).
Proof.
  assert (Hc : findActiveIncident exampleWorld (server_id lobby)
                 (issue_type lobbyOffline) 0 = None)
    by (vm_compute; reflexivity).
  assert (He : issue_type lobbyOffline = "server_offline")
    by (vm_compute; reflexivity).
  split; [exact Hc|].
  destruct (offline_incident_arms_watcher mailDown lobby lobbyOffline 0
              exampleWorld Hc) as [H _].
  destruct (H He) as (doc & Ht & _ & _ & Hf).
  exists doc. split; [exact Ht | exact Hf].
Defined.


(** ** Outages that outlast the window, and the stats of a run of checks *)

Section LongOutage.

Variable provider : Channel -> jsval -> Template -> option string.

(** Detections within the window of the incident just created are
    absorbed. *)
Lemma detections_absorbed server issue t0 ts w :
  wf_incidents w -> separated w ->
  findActiveIncident w (server_id server) (issue_type issue) t0 = None ->
  Forall (fun t => t0 <= t <= t0 + dedupWindow) ts ->
  detections provider server issue ts (handleIssue provider server issue t0 w)
  = handleIssue provider server issue t0 w.
Proof.
  intros Hwf Hsep He Hts.
  destruct (handleIssue_preserves provider server issue t0 w Hwf Hsep) as [Hwf1 _].
  destruct (handleIssue_new provider server issue t0 w Hwf He) as (Hi & _).
  apply detections_found; [exact Hwf1|].
  eapply Forall_impl; [exact Hts|]. intros t Ht. simpl in Ht.
  destruct (findActiveIncident (handleIssue provider server issue t0 w)
              (server_id server) (issue_type issue) t) as [e|] eqn:Hf;
    [eexists; reflexivity|].
  exfalso. apply find_none with (x := set_notificationsSent
      (truthy (shouldSend w (issue_severity issue)))
      (doc_row (newIncident (nextObjectId w) server issue t0))) in Hf.
  - unfold matchesActive in Hf. simpl in Hf.
    rewrite Nat.eqb_refl, String.eqb_refl in Hf. simpl in Hf.
    apply Z.leb_gt in Hf. lia.
  - rewrite Hi. apply in_app_iff. right. left. reflexivity.
Qed.

(** X17: the window is counted from the creation of the incident, and the
    detections it absorbs do not extend it.  When an issue is first
    detected at [t0], is detected again at any times within 30 minutes,
    and is still detected more than 30 minutes after [t0], the last
    detection creates a second incident of the same server and type next
    to the first one, which is still active; both carry their own id. *)
Theorem long_outage_raises_again (server : Server) (issue : Issue)
    (t0 t1 : Z) (ts : list Z) (w : World) :
  wf_incidents w -> separated w ->
  findActiveIncident w (server_id server) (issue_type issue) t0 = None ->
  Forall (fun t => t0 <= t <= t0 + dedupWindow) ts ->
  t0 + dedupWindow < t1 ->
  let w1 := detections provider server issue ts
              (handleIssue provider server issue t0 w) in
  let w2 := handleIssue provider server issue t1 w1 in
  exists r1 r2,
    incidents w1 = incidents w ++ [r1]
    /\ incidents w2 = incidents w ++ [r1; r2]
    /\ activePair (server_id server) (issue_type issue) r1 = true
    /\ activePair (server_id server) (issue_type issue) r2 = true
    /\ createdAt r1 = t0 /\ createdAt r2 = t1
    /\ incident_id r1 = nextObjectId w
    /\ incident_id r2 = S (nextObjectId w).
Proof.
  intros Hwf Hsep He Hts Hlate w1 w2. unfold w2, w1.
  rewrite (detections_absorbed server issue t0 ts w Hwf Hsep He Hts).
  destruct (handleIssue_preserves provider server issue t0 w Hwf Hsep) as [Hwf1 _].
  destruct (handleIssue_new provider server issue t0 w Hwf He) as (Hi & Hn & _).
  set (wa := handleIssue provider server issue t0 w) in *.
  assert (He1 : findActiveIncident wa (server_id server) (issue_type issue) t1
                = None).
  { destruct (findActiveIncident wa (server_id server) (issue_type issue) t1)
      as [e|] eqn:Hf; [|reflexivity].
    exfalso. apply findActiveIncident_Some in Hf as (Hin & Hact & Hc).
    rewrite Hi in Hin. apply in_app_iff in Hin as [Hin|[<-|[]]].
    - pose proof (findActiveIncident_None _ _ _ _ _ He Hin Hact).
      unfold dedupWindow in *. lia.
    - simpl in Hc. unfold dedupWindow in *. lia. }
  destruct (handleIssue_new provider server issue t1 wa Hwf1 He1) as (Hi2 & _).
  eexists. eexists. split; [exact Hi|]. split.
  - rewrite Hi2, Hi, <- app_assoc. reflexivity.
  - unfold activePair. simpl. rewrite Nat.eqb_refl, String.eqb_refl, Hn. simpl.
    repeat split; reflexivity.
Qed.



End LongOutage.

Lemma long_outage_raises_again_witness :
  let w1 := detections reliable lobby lobbyOffline [300000; 1800000]
              (handleIssue reliable lobby lobbyOffline 0 exampleWorld) in
  let w2 := handleIssue reliable lobby lobbyOffline 1800001 w1 in
  findActiveIncident exampleWorld (server_id lobby) (issue_type lobbyOffline) 0
  = None
  /\ 0 + dedupWindow < 1800001
  /\ exists r1 r2,
       incidents w2 = [r1; r2]
       /\ createdAt r1 = 0 /\ createdAt r2 = 1800001
       /\ activePair 7%nat "server_offline" r1 = true
       /\ activePair 7%nat "server_offline" r2 = true.
Proof.
  intros w1 w2.
  assert (Hwf : wf_incidents exampleWorld)
    by (split; [apply NoDup_nil; exact I | constructor]).
  assert (Hc : findActiveIncident exampleWorld (server_id lobby)
                 (issue_type lobbyOffline) 0 = None)
    by (vm_compute; reflexivity).
  assert (Hts : Forall (fun t => 0 <= t <= 0 + dedupWindow) [300000; 1800000])
    by (repeat constructor; unfold dedupWindow; lia).
  assert (Hl : 0 + dedupWindow < 1800001) by (unfold dedupWindow; lia).
  split; [exact Hc|]. split; [exact Hl|].
  destruct (long_outage_raises_again reliable lobby lobbyOffline 0 1800001
              [300000; 1800000] exampleWorld Hwf I Hc Hts Hl)
    as (r1 & r2 & _ & H2 & Ha1 & Ha2 & Hc1 & Hc2 & _).
  exists r1, r2. split; [exact H2|]. split; [exact Hc1|]. split; [exact Hc2|].
  split; [exact Ha1 | exact Ha2].
Defined.
